(** * esque: the Avro archive writer and reader ([esque/avromessage.py])

    A shallow embedding of [AvroFileWriter], [AvroFileReader] and
    [extract_schema_id], and the properties of the segmented archive they
    produce.  The schema registry client, the Avro codec ([fastavro]) and the
    schema (de)serialisers ([json.dumps], [confluent_kafka.avro.loads]) are
    external libraries: they enter as the fields of [Collaborators]. *)

From Stdlib Require Import ZArith Lia.
From Stdlib Require Import Strings.Byte Strings.Ascii.
From stdpp Require Import base option list gmap strings pretty sorting.

Local Open Scope Z_scope.

(** ** Exceptions and the state-and-exception monad *)

(** The Python exceptions that can leave the writer or the reader. *)
Inductive error : Type :=
  | MalformedWireFormat                 (* struct.error in [extract_schema_id] *)
  | SchemaLookupFailed (schema_id : Z)  (* raised by the registry client *)
  | AvroDecodeFailed                    (* raised by fastavro *)
  | FileExistsError (name : string)     (* Path.mkdir on an existing path *)
  | SegmentMissing (name : string)      (* FileNotFoundError in Path.read_text *)
  | SchemaParseFailed                   (* raised by confluent_kafka.avro.loads *)
  | NoCurrentSegment.                   (* schema_dir_name is None at pickle.dump *)

Inductive result (A : Type) : Type :=
  | Ok (a : A)
  | Raise (e : error).
Arguments Ok {A} a.
Arguments Raise {A} e.

Definition is_ok {A} (r : result A) : bool :=
  match r with Ok _ => true | Raise _ => false end.

(** A computation over a mutable state [S] that may raise: the state it has
    reached survives the exception, as the attributes of a Python object do. *)
Definition M (S A : Type) : Type := S -> S * result A.

Definition ret {S A} (a : A) : M S A := fun s => (s, Ok a).
Definition raise {S A} (e : error) : M S A := fun s => (s, Raise e).
Definition bind {S A B} (c : M S A) (k : A -> M S B) : M S B :=
  fun s => match c s with
           | (s', Ok a) => k a s'
           | (s', Raise e) => (s', Raise e)
           end.
Definition get {S} : M S S := fun s => (s, Ok s).
Definition modify {S} (f : S -> S) : M S unit := fun s => (f s, Ok tt).
Definition lift {S A} (r : result A) : M S A := fun s => (s, r).

Notation "'let*' x ':=' c 'in' k" := (bind c (fun x => k))
  (at level 10, x pattern, c at level 100, k at level 200).
Notation "c ';;' k" := (bind c (fun _ => k))
  (at level 100, k at level 200, right associativity).

(** ** The wire header ([struct.unpack(">bI", ...)]) *)

Definition byte_val (b : byte) : Z := Z.of_N (Byte.to_N b).

(** Format [b]: one signed char. *)
Definition signed_char (b : byte) : Z :=
  if byte_val b <? 128 then byte_val b else byte_val b - 256.

(** Format [I] after [>]: four bytes, most significant first. *)
Definition be_uint (bs : list byte) : Z :=
  fold_left (fun acc b => Z.lor (Z.shiftl acc 8) (byte_val b)) bs 0.

(** [struct.unpack(">bI", data)]: exactly five bytes, otherwise struct.error. *)
Definition struct_unpack_bI (data : list byte) : result (Z * Z) :=
  match data with
  | [b0; b1; b2; b3; b4] => Ok (signed_char b0, be_uint [b1; b2; b3; b4])
  | _ => Raise MalformedWireFormat
  end.

Definition extract_schema_id (message : list byte) : result Z :=
  match struct_unpack_bI (take 5 message) with
  | Ok (_, schema_id) => Ok schema_id
  | Raise e => Raise e
  end.

(** [io.BytesIO]: a buffer and a read position. *)
Record BytesIO : Type := { buffer : list byte; position : nat }.

Definition BytesIO_open (raw_data : list byte) : BytesIO :=
  {| buffer := raw_data; position := 0 |}.

Definition BytesIO_rest (s : BytesIO) : list byte := drop (position s) (buffer s).

Definition BytesIO_read (n : nat) (s : BytesIO) : list byte * BytesIO :=
  (take n (BytesIO_rest s),
   {| buffer := buffer s;
      position := Nat.min (length (buffer s)) (position s + n) |}).

(** ** Messages and the external collaborators *)

(** A polled Kafka message: [message.key()] and [message.value()]. *)
Record Message : Type := { msg_key : option (list byte); msg_value : option (list byte) }.

(** What [get_schema_from_id] returns. *)
Record RegisteredSchema (Doc Parsed : Type) : Type :=
  { original_schema : Doc; parsed_schema : Parsed }.
Arguments original_schema {Doc Parsed} _.
Arguments parsed_schema {Doc Parsed} _.

(** The libraries the module calls.  [get_schema_from_id] answers [None] when
    the registry client raises; [schemaless_reader] is given the bytes that
    remain in the stream and answers [Ok None] for an Avro null. *)
Record Collaborators : Type := {
  Datum : Type;
  SchemaDoc : Type;
  ParsedSchema : Type;
  AvroSchema : Type;
  get_schema_from_id : Z -> option (RegisteredSchema SchemaDoc ParsedSchema);
  schemaless_reader : list byte -> ParsedSchema -> result (option Datum);
  json_dumps : SchemaDoc -> string;
  load_schema : string -> result AvroSchema
}.

(** A small registry used for the concrete runs below: it knows the schema ids
    1, 2 and 3; the codec returns the body as the record, and [None] for an
    empty body (the encoding of the Avro null is empty); schema documents are
    their own JSON text. *)
Definition toy_registry (schema_id : Z) : option (RegisteredSchema string Z) :=
  if bool_decide (1 <= schema_id <= 3)
  then Some {| original_schema := "schema-" +:+ pretty schema_id; parsed_schema := schema_id |}
  else None.

Definition toy_reader (body : list byte) (_ : Z) : result (option (list byte)) :=
  Ok (match body with [] => None | _ => Some body end).

Definition toy : Collaborators :=
  {| Datum := list byte; SchemaDoc := string; ParsedSchema := Z; AvroSchema := string;
     get_schema_from_id := toy_registry;
     schemaless_reader := toy_reader;
     json_dumps := fun doc => doc;
     load_schema := fun text => Ok text |}.

(** A wire payload: marker byte 0, the schema id (below 256 here), the body. *)
Definition payload (schema_id : byte) (body : list byte) : option (list byte) :=
  Some (x00 :: x00 :: x00 :: x00 :: schema_id :: body).

Definition message_1_1 : Message :=
  {| msg_key := payload x01 [x07]; msg_value := payload x01 [x08] |}.
Definition message_1_2 : Message :=
  {| msg_key := payload x01 [x07]; msg_value := payload x02 [x08] |}.
(** A tombstone: a key and no value. *)
Definition tombstone : Message :=
  {| msg_key := payload x01 [x07]; msg_value := None |}.
Definition keyless : Message :=
  {| msg_key := None; msg_value := payload x01 [x08] |}.
(** A value written under schema 2 that decodes to the Avro null. *)
Definition null_valued : Message :=
  {| msg_key := payload x01 [x07]; msg_value := payload x02 [] |}.
(** A key under an id the registry does not know, and a two-byte value. *)
Definition unknown_key_short_value : Message :=
  {| msg_key := payload x07 []; msg_value := Some [x00; x00] |}.
Definition short_value : Message :=
  {| msg_key := payload x01 [x07]; msg_value := Some [x00; x00] |}.

(** ** Segment names: [f"{next(self.schema_version):04}_{key_schema_id}_{value_schema_id}"] *)

Fixpoint zeros (n : nat) : string :=
  match n with O => "" | S n => String "0"%char (zeros n) end.

(** Format spec [04] on a non-negative integer: zero-padded to width 4. *)
Definition format_04 (n : nat) : string :=
  zeros (4 - String.length (pretty n))%nat +:+ pretty n.

Definition segment_dir_name (n : nat) (key_schema_id value_schema_id : Z) : string :=
  format_04 n +:+ "_" +:+ pretty key_schema_id +:+ "_" +:+ pretty value_schema_id.

(** The number a string starts with: its leading decimal digits, read most
    significant first (used to tell segment names apart). *)
Fixpoint leading_number (acc : N) (s : string) : N :=
  match s with
  | EmptyString => acc
  | String c rest =>
      match Ascii.is_nat c with
      | Some d => leading_number (acc * 10 + N.of_nat d) rest
      | None => acc
      end
  end.

(** [s] holds no underscore. *)
Fixpoint no_underscore (s : string) : Prop :=
  match s with
  | EmptyString => True
  | String c rest => c <> "_"%char /\ no_underscore rest
  end.

(** ** The [apply] command ([esque/cli/commands.py])

    [apply] reads topic descriptions from a YAML file and brings the cluster
    in line with them.  The topics parsed from the file (lines 314 and 315)
    are its input here; the topic controller and the approval prompt are
    external. *)

(** What [apply] asks of the cluster and of the user: the names of the topics
    [list_topics] finds for a search string; for a topic, whether
    [diff_with_cluster] has changes and whether they are valid; the answer of
    [ensure_approval]. *)
Record Cluster (Topic : Type) : Type := {
  list_topics : string -> list string;
  diff_has_changes : Topic -> bool;
  diff_is_valid : Topic -> bool;
  ensure_approval : bool
}.
Arguments list_topics {Topic} _ _.
Arguments diff_has_changes {Topic} _ _.
Arguments diff_is_valid {Topic} _ _.
Arguments ensure_approval {Topic} _.

(** How [apply] ends: by an exception, by one of its early returns, or by
    creating and altering topics and reporting the three counts. *)
Inductive apply_outcome (Topic : Type) : Type :=
  | DuplicateTopicNames      (* ValidationException, line 318 *)
  | SanityCheckFailed        (* AssertionError, line 336 *)
  | NoChangesDetected        (* return, line 351 *)
  | InvalidChanges           (* return, line 359 *)
  | ChangesCancelled         (* return, line 364 *)
  | ChangesApplied (to_create to_edit : list Topic) (unchanged created changed : nat).
Arguments DuplicateTopicNames {Topic}.
Arguments SanityCheckFailed {Topic}.
Arguments NoChangesDetected {Topic}.
Arguments InvalidChanges {Topic}.
Arguments ChangesCancelled {Topic}.
Arguments ChangesApplied {Topic} _ _ _ _ _.

(** [set(a).isdisjoint(set(b))]. *)
Definition isdisjoint {A} `{EqDecision A} (a b : list A) : bool :=
  forallb (fun x => negb (bool_decide (x ∈ b))) a.

(** [apply], from line 316 on.  Equality of topics stands for Python's [==]
    on the topics of the file, whose names are pairwise distinct once line
    317 is passed. *)
Definition apply {Topic} `{EqDecision Topic} (name : Topic -> string)
    (cluster : Cluster Topic) (yaml_topics : list Topic) : apply_outcome Topic :=
  let yaml_topic_names := name <$> yaml_topics in
  if negb (length yaml_topic_names =? size (list_to_set yaml_topic_names : gset string))%nat
  then DuplicateTopicNames
  else
    let cluster_topic_names := list_topics cluster (String.concat "|" yaml_topic_names) in
    let to_create :=
      filter (fun yaml_topic => name yaml_topic ∉ cluster_topic_names) yaml_topics in
    let to_edit :=
      filter (fun yaml_topic => (yaml_topic ∉ to_create)
                                /\ diff_has_changes cluster yaml_topic = true) yaml_topics in
    let to_ignore :=
      filter (fun yaml_topic => (yaml_topic ∉ to_create) /\ (yaml_topic ∉ to_edit))
             yaml_topics in
    if negb (isdisjoint to_create to_edit && isdisjoint to_create to_ignore
             && isdisjoint to_edit to_ignore
             && (length to_create + length to_edit + length to_ignore
                 =? length yaml_topics)%nat)
    then SanityCheckFailed
    else if (length to_edit + length to_create =? 0)%nat then NoChangesDetected
    else if existsb (fun t => negb (diff_is_valid cluster t)) to_edit then InvalidChanges
    else if negb (ensure_approval cluster) then ChangesCancelled
    else ChangesApplied to_create to_edit
                        (length to_ignore) (length to_create) (length to_edit).

(** A cluster that holds the topics [orders] and [users]; the description of
    [users] differs from the cluster's, validly; the user approves. *)
Definition toy_cluster : Cluster string :=
  {| list_topics := fun _ => ["orders"; "users"];
     diff_has_changes := fun t => bool_decide (t = "users");
     diff_is_valid := fun _ => true;
     ensure_approval := true |}.

(** ** The writer and the reader *)

Section Archive.

Variable E : Collaborators.

Record DecodedAvroMessage : Type := {
  key : option (Datum E);
  value : option (Datum E);
  key_schema_id : Z;
  value_schema_id : Z
}.

(** The dict pickled for every message. *)
Record ArchiveRecord : Type := {
  record_key : option (Datum E);
  record_value : option (Datum E);
  schema_directory_name : string
}.

(** [KafkaMessage(key, value, key_schema, value_schema)], built by the reader. *)
Record KafkaMessage : Type := {
  message_key : option (Datum E);
  message_value : option (Datum E);
  key_schema : AvroSchema E;
  value_schema : AvroSchema E
}.

(** The attributes of an [AvroFileWriter]; [schema_version] holds the number
    the counter [it.count(1)] yields next. *)
Record AvroFileWriter : Type := {
  current_key_schema_id : option Z;
  current_value_schema_id : option Z;
  schema_dir_name : option string;
  schema_version : nat
}.

(** A segment: a directory made by the writer, with the number and the schema
    ids its name was built from. *)
Record Segment : Type := {
  segment_name : string;
  sequence : nat;
  segment_key_schema_id : Z;
  segment_value_schema_id : Z
}.

(** Everything a write call can touch: the writer object, the directories
    under [working_dir] (directory name to file name to text), the record
    stream [file], and two logs kept for the statements below: the segments in
    the order their directories were made, and the ids passed to
    [get_schema_from_id], oldest first. *)
Record World : Type := {
  self : AvroFileWriter;
  working_dir : gmap string (gmap string string);
  file : list ArchiveRecord;
  segments : list Segment;
  resolver_calls : list Z
}.

Definition set_self (f : AvroFileWriter -> AvroFileWriter) (w : World) : World :=
  {| self := f (self w); working_dir := working_dir w; file := file w;
     segments := segments w; resolver_calls := resolver_calls w |}.

Definition set_working_dir (d : gmap string (gmap string string)) (w : World) : World :=
  {| self := self w; working_dir := d; file := file w;
     segments := segments w; resolver_calls := resolver_calls w |}.

Definition log_segment (s : Segment) (w : World) : World :=
  {| self := self w; working_dir := working_dir w; file := file w;
     segments := segments w ++ [s]; resolver_calls := resolver_calls w |}.

Definition log_resolver_call (schema_id : Z) (w : World) : World :=
  {| self := self w; working_dir := working_dir w; file := file w;
     segments := segments w; resolver_calls := resolver_calls w ++ [schema_id] |}.

(** [AvroFileWriter.__init__] on a new, empty archive directory. *)
Definition new_writer : AvroFileWriter :=
  {| current_key_schema_id := None; current_value_schema_id := None;
     schema_dir_name := None; schema_version := 1 |}.

Definition initial_world : World :=
  {| self := new_writer; working_dir := ∅; file := []; segments := [];
     resolver_calls := [] |}.

(** [self.schema_registry_client.get_schema_from_id(schema_id)]. *)
Definition get_schema (schema_id : Z)
  : M World (RegisteredSchema (SchemaDoc E) (ParsedSchema E)) :=
  modify (log_resolver_call schema_id) ;;
  match get_schema_from_id E schema_id with
  | Some schema => ret schema
  | None => raise (SchemaLookupFailed schema_id)
  end.

Definition decode_bytes (raw_data : option (list byte)) : M World (Z * option (Datum E)) :=
  match raw_data with
  | None => ret (-1, None)
  | Some raw =>
      let '(header, fake_stream) := BytesIO_read 5 (BytesIO_open raw) in
      let* schema_id := lift (extract_schema_id header) in
      let* schema := get_schema schema_id in
      let* record := lift (schemaless_reader E (BytesIO_rest fake_stream) (parsed_schema schema)) in
      ret (schema_id, record)
  end.

(** What [decode_bytes] returns; it does not depend on the state it runs in. *)
Definition decode_result (raw_data : option (list byte)) : result (Z * option (Datum E)) :=
  snd (decode_bytes raw_data initial_world).

Definition is_not_None {A} (x : option A) : bool :=
  match x with Some _ => true | None => false end.

Definition schema_changed (self : AvroFileWriter) (decoded_message : DecodedAvroMessage) : bool :=
  (bool_decide (current_value_schema_id self <> Some (value_schema_id decoded_message))
     && is_not_None (value decoded_message))
  || bool_decide (current_key_schema_id self <> Some (key_schema_id decoded_message)).

(** [next(self.schema_version)]. *)
Definition next_schema_version : M World nat :=
  fun w =>
    let n := schema_version (self w) in
    (set_self (fun s => {| current_key_schema_id := current_key_schema_id s;
                           current_value_schema_id := current_value_schema_id s;
                           schema_dir_name := schema_dir_name s;
                           schema_version := S n |}) w, Ok n).

Definition set_schema_dir_name (name : string) : M World unit :=
  modify (set_self (fun s => {| current_key_schema_id := current_key_schema_id s;
                                current_value_schema_id := current_value_schema_id s;
                                schema_dir_name := Some name;
                                schema_version := schema_version s |})).

Definition set_current_key_schema_id (schema_id : Z) : M World unit :=
  modify (set_self (fun s => {| current_key_schema_id := Some schema_id;
                                current_value_schema_id := current_value_schema_id s;
                                schema_dir_name := schema_dir_name s;
                                schema_version := schema_version s |})).

Definition set_current_value_schema_id (schema_id : Z) : M World unit :=
  modify (set_self (fun s => {| current_key_schema_id := current_key_schema_id s;
                                current_value_schema_id := Some schema_id;
                                schema_dir_name := schema_dir_name s;
                                schema_version := schema_version s |})).

(** [directory.mkdir()]: FileExistsError when the path is already there. *)
Definition mkdir (name : string) : M World unit :=
  fun w => match working_dir w !! name with
           | Some _ => (w, Raise (FileExistsError name))
           | None => (set_working_dir (<[name := ∅]> (working_dir w)) w, Ok tt)
           end.

(** [(directory / file_name).write_text(text)]. *)
Definition write_text (name file_name text : string) : M World unit :=
  fun w => match working_dir w !! name with
           | Some files =>
               (set_working_dir (<[name := <[file_name := text]> files]> (working_dir w)) w, Ok tt)
           | None => (w, Raise (SegmentMissing name))
           end.

(** [pickle.dump(serializable_message, file)]. *)
Definition pickle_dump (r : ArchiveRecord) : M World unit :=
  modify (fun w => {| self := self w; working_dir := working_dir w; file := file w ++ [r];
                      segments := segments w; resolver_calls := resolver_calls w |}).

Definition write_message_to_file (message : Message) : M World unit :=
  let* (key_schema_id, decoded_key) := decode_bytes (msg_key message) in
  let* (value_schema_id, decoded_value) := decode_bytes (msg_value message) in
  let decoded_message :=
    {| key := decoded_key; value := decoded_value;
       key_schema_id := key_schema_id; value_schema_id := value_schema_id |} in
  let* w := get in
  (if schema_changed (self w) decoded_message || negb (is_not_None (schema_dir_name (self w)))
   then
     let* n := next_schema_version in
     let name := segment_dir_name n key_schema_id value_schema_id in
     set_schema_dir_name name ;;
     set_current_key_schema_id key_schema_id ;;
     set_current_value_schema_id value_schema_id ;;
     mkdir name ;;
     modify (log_segment {| segment_name := name; sequence := n;
                            segment_key_schema_id := key_schema_id;
                            segment_value_schema_id := value_schema_id |}) ;;
     let* key_entry := get_schema key_schema_id in
     write_text name "key_schema.avsc" (json_dumps E (original_schema key_entry)) ;;
     let* value_entry := get_schema value_schema_id in
     write_text name "value_schema.avsc" (json_dumps E (original_schema value_entry))
   else ret tt) ;;
  let* w := get in
  match schema_dir_name (self w) with
  | Some name =>
      pickle_dump {| record_key := decoded_key; record_value := decoded_value;
                     schema_directory_name := name |}
  | None => raise NoCurrentSegment
  end.

(** The part of [write_message_to_file] that follows the two [decode_bytes]
    calls, as a function of the decoded message (used to reason about it). *)
Definition archive_decoded (decoded_message : DecodedAvroMessage) : M World unit :=
  let key_schema_id := key_schema_id decoded_message in
  let value_schema_id := value_schema_id decoded_message in
  let* w := get in
  (if schema_changed (self w) decoded_message || negb (is_not_None (schema_dir_name (self w)))
   then
     let* n := next_schema_version in
     let name := segment_dir_name n key_schema_id value_schema_id in
     set_schema_dir_name name ;;
     set_current_key_schema_id key_schema_id ;;
     set_current_value_schema_id value_schema_id ;;
     mkdir name ;;
     modify (log_segment {| segment_name := name; sequence := n;
                            segment_key_schema_id := key_schema_id;
                            segment_value_schema_id := value_schema_id |}) ;;
     let* key_entry := get_schema key_schema_id in
     write_text name "key_schema.avsc" (json_dumps E (original_schema key_entry)) ;;
     let* value_entry := get_schema value_schema_id in
     write_text name "value_schema.avsc" (json_dumps E (original_schema value_entry))
   else ret tt) ;;
  let* w := get in
  match schema_dir_name (self w) with
  | Some name =>
      pickle_dump {| record_key := key decoded_message; record_value := value decoded_message;
                     schema_directory_name := name |}
  | None => raise NoCurrentSegment
  end.

(** A sequence of write calls on one writer; the caller sees each result and
    goes on to the next message. *)
Fixpoint write_messages (messages : list Message) (w : World) : World * list (result unit) :=
  match messages with
  | [] => (w, [])
  | message :: rest =>
      let '(w1, r) := write_message_to_file message w in
      let '(w2, rs) := write_messages rest w1 in
      (w2, r :: rs)
  end.

(** [(schema_directory / file_name).read_text()]. *)
Definition read_text (dirs : gmap string (gmap string string)) (name file_name : string)
  : result string :=
  match dirs !! name with
  | Some files =>
      match files !! file_name with
      | Some text => Ok text
      | None => Raise (SegmentMissing name)
      end
  | None => Raise (SegmentMissing name)
  end.

(** [pickle.load(file)]; [None] stands for EOFError. *)
Definition pickle_load : M (list ArchiveRecord) (option ArchiveRecord) :=
  fun stream => match stream with
                | [] => ([], Ok None)
                | r :: rest => (rest, Ok (Some r))
                end.

Definition read_from_file (dirs : gmap string (gmap string string))
  : M (list ArchiveRecord) (option KafkaMessage) :=
  let* loaded := pickle_load in
  match loaded with
  | None => ret None
  | Some record =>
      let schema_directory := schema_directory_name record in
      let* key_text := lift (read_text dirs schema_directory "key_schema.avsc") in
      let* key_schema := lift (load_schema E key_text) in
      let* value_text := lift (read_text dirs schema_directory "value_schema.avsc") in
      let* value_schema := lift (load_schema E value_text) in
      ret (Some {| message_key := record_key record; message_value := record_value record;
                   key_schema := key_schema; value_schema := value_schema |})
  end.

(** The caller's loop: read until [read_from_file] answers [None]; an
    exception ends it.  [None] here means the fuel ran out. *)
Fixpoint read_messages (fuel : nat) (dirs : gmap string (gmap string string))
    (stream : list ArchiveRecord) : option (result (list KafkaMessage)) :=
  match fuel with
  | O => None
  | S fuel =>
      match read_from_file dirs stream with
      | (_, Raise e) => Some (Raise e)
      | (_, Ok None) => Some (Ok [])
      | (stream', Ok (Some m)) =>
          match read_messages fuel dirs stream' with
          | Some (Ok ms) => Some (Ok (m :: ms))
          | other => other
          end
      end
  end.

(** The writer's attributes once segment number [n] has been opened. *)
Definition opened_writer (n : nat) (key_schema_id value_schema_id : Z) : AvroFileWriter :=
  {| current_key_schema_id := Some key_schema_id;
     current_value_schema_id := Some value_schema_id;
     schema_dir_name := Some (segment_dir_name n key_schema_id value_schema_id);
     schema_version := S n |}.

Definition opened_segment (n : nat) (key_schema_id value_schema_id : Z) : Segment :=
  {| segment_name := segment_dir_name n key_schema_id value_schema_id; sequence := n;
     segment_key_schema_id := key_schema_id; segment_value_schema_id := value_schema_id |}.

(** What holds of every state a new writer reaches on an empty archive
    directory: the counter is one ahead of the segments made, segment number
    [i] carries the name built from [i], the directories are those of the
    segments, and the writer's attributes are those of the last segment. *)
Record writer_invariant (w : World) : Prop := {
  inv_counter : schema_version (self w) = S (length (segments w));
  inv_segments : forall i s, segments w !! i = Some s ->
    s = opened_segment (S i) (segment_key_schema_id s) (segment_value_schema_id s);
  inv_directories : forall name, is_Some (working_dir w !! name) ->
    exists s, s ∈ segments w /\ segment_name s = name;
  inv_current :
    match last (segments w) with
    | None => self w = new_writer
    | Some s => self w = opened_writer (sequence s) (segment_key_schema_id s)
                                       (segment_value_schema_id s)
    end
}.

(** Two states that differ at most in the log of resolver calls. *)
Definition same_archive (w w' : World) : Prop :=
  self w' = self w /\ working_dir w' = working_dir w
  /\ file w' = file w /\ segments w' = segments w.

(** ** Vocabulary of the statements *)

(** Where a segment's key schema id comes from: some message of [messages]
    has no key and the id is -1, or has a key whose header holds the id. *)
Definition key_schema_id_from (messages : list Message) (s : Segment) : Prop :=
  exists message, message ∈ messages
    /\ (msg_key message = None /\ segment_key_schema_id s = -1
        \/ exists raw, msg_key message = Some raw
             /\ extract_schema_id raw = Ok (segment_key_schema_id s)
             /\ 0 <= segment_key_schema_id s < 2 ^ 32).

Definition decodes_to_pair (kid vid : Z) (message : Message) : Prop :=
  exists dk dv, decode_result (msg_key message) = Ok (kid, dk)
                /\ decode_result (msg_value message) = Ok (vid, dv).

(** [schema] is the document the registry returns for [schema_id], as the
    reader parses it from the text the writer stored. *)
Definition registered_as (schema_id : Z) (schema : AvroSchema E) : Prop :=
  exists entry, get_schema_from_id E schema_id = Some entry
    /\ load_schema E (json_dumps E (original_schema entry)) = Ok schema.

(** The message read back for [message]: its decoded key and value, the key
    schema registered for its key schema id, and a registered value schema,
    which is the one of its value schema id when the decoded value is
    present. *)
Definition reconstructs (message : Message) (out : KafkaMessage) : Prop :=
  exists kid dk vid dv,
    decode_result (msg_key message) = Ok (kid, dk)
    /\ decode_result (msg_value message) = Ok (vid, dv)
    /\ message_key out = dk /\ message_value out = dv
    /\ registered_as kid (key_schema out)
    /\ exists vid', registered_as vid' (value_schema out) /\ (dv <> None -> vid' = vid).

(** The same with the value schema of the message's own value schema id in
    every case. *)
Definition reconstructs_exactly (message : Message) (out : KafkaMessage) : Prop :=
  exists kid dk vid dv,
    decode_result (msg_key message) = Ok (kid, dk)
    /\ decode_result (msg_value message) = Ok (vid, dv)
    /\ message_key out = dk /\ message_value out = dv
    /\ registered_as kid (key_schema out)
    /\ registered_as vid (value_schema out).

(** Directory [name] holds the two schema documents of the ids [kid], [vid]. *)
Definition segment_holds (dirs : gmap string (gmap string string)) (name : string)
    (kid vid : Z) : Prop :=
  exists files ks vs,
    dirs !! name = Some files
    /\ get_schema_from_id E kid = Some ks /\ get_schema_from_id E vid = Some vs
    /\ files !! "key_schema.avsc" = Some (json_dumps E (original_schema ks))
    /\ files !! "value_schema.avsc" = Some (json_dumps E (original_schema vs)).

(** Record [r] is the one written for the decoded message [d]. *)
Definition record_of (dirs : gmap string (gmap string string)) (d : DecodedAvroMessage)
    (r : ArchiveRecord) : Prop :=
  record_key r = key d /\ record_value r = value d
  /\ exists vid', segment_holds dirs (schema_directory_name r) (key_schema_id d) vid'
                  /\ (value d <> None -> vid' = value_schema_id d).

Definition decoded_as (message : Message) (d : DecodedAvroMessage) : Prop :=
  decode_result (msg_key message) = Ok (key_schema_id d, key d)
  /\ decode_result (msg_value message) = Ok (value_schema_id d, value d).

(** What holds while every write call has succeeded: the records are those of
    the messages, and the current segment has both its documents. *)
Definition archived (w : World) (ds : list DecodedAvroMessage) : Prop :=
  Forall2 (record_of (working_dir w)) ds (file w)
  /\ forall name, schema_dir_name (self w) = Some name ->
       exists kid vid, current_key_schema_id (self w) = Some kid
         /\ current_value_schema_id (self w) = Some vid
         /\ segment_holds (working_dir w) name kid vid.

(** ** Vocabulary of the further properties *)

(** The number the directory name of a record starts with. *)
Definition record_sequence (r : ArchiveRecord) : N :=
  leading_number 0 (schema_directory_name r).

(** What the directory of segment [s] may hold: no file but the two schema
    files; a key schema file holds the document registered for the segment's
    key schema id; a value schema file comes with a key schema file and holds
    the document registered for the segment's value schema id. *)
Definition segment_files (s : Segment) (files : gmap string string) : Prop :=
  (forall file_name text, files !! file_name = Some text ->
     file_name = "key_schema.avsc" \/ file_name = "value_schema.avsc")
  /\ (forall text, files !! "key_schema.avsc" = Some text ->
        exists entry, get_schema_from_id E (segment_key_schema_id s) = Some entry
                      /\ text = json_dumps E (original_schema entry))
  /\ (forall text, files !! "value_schema.avsc" = Some text ->
        is_Some (files !! "key_schema.avsc")
        /\ exists entry, get_schema_from_id E (segment_value_schema_id s) = Some entry
                         /\ text = json_dumps E (original_schema entry)).

Definition segments_on_disk (w : World) : Prop :=
  forall s, s ∈ segments w ->
    exists files, working_dir w !! segment_name s = Some files /\ segment_files s files.

(** Every record names a segment, and the sequence numbers of the records
    never decrease along the stream. *)
Definition records_follow_segments (w : World) : Prop :=
  Forall (fun r => exists s, s ∈ segments w
                             /\ segment_name s = schema_directory_name r
                             /\ record_sequence r = N.of_nat (sequence s)) (file w)
  /\ StronglySorted N.le (record_sequence <$> file w).

(** * Properties *)


(** ** Segment names *)

Lemma string_app_assoc (s1 s2 s3 : string) : (s1 +:+ s2) +:+ s3 = s1 +:+ (s2 +:+ s3).
Proof.
  induction s1 as [| c s1 IH]; [reflexivity |].
  change (String c ((s1 +:+ s2) +:+ s3) = String c (s1 +:+ (s2 +:+ s3))).
  rewrite IH. reflexivity.
Qed.

Lemma is_nat_pretty_N_char (d : N) :
  (d < 10)%N -> Ascii.is_nat (pretty_N_char d) = Some (N.to_nat d).
Proof.
  intros Hd.
  assert (d = 0 \/ d = 1 \/ d = 2 \/ d = 3 \/ d = 4 \/ d = 5 \/ d = 6 \/ d = 7
          \/ d = 8 \/ d = 9)%N as Hcases by lia.
  repeat (destruct Hcases as [-> | Hcases]; [reflexivity |]). subst d. reflexivity.
Qed.

Lemma pretty_N_go_app (x : N) (s t : string) :
  pretty_N_go x s +:+ t = pretty_N_go x (s +:+ t).
Proof.
  revert s. induction (N.lt_wf_0 x) as [x _ IH]. intros s.
  destruct (decide (x = 0)%N) as [-> | Hx].
  - rewrite !pretty_N_go_0. reflexivity.
  - rewrite (pretty_N_go_step x s), (pretty_N_go_step x (s +:+ t)) by lia.
    rewrite IH; [reflexivity |]. apply N.div_lt; lia.
Qed.

Lemma leading_number_pretty_N_go (x : N) (s : string) :
  exists k : N, forall acc : N,
    leading_number acc (pretty_N_go x s) = leading_number (acc * 10 ^ k + x)%N s.
Proof.
  revert s. induction (N.lt_wf_0 x) as [x _ IH]. intros s.
  destruct (decide (x = 0)%N) as [-> | Hx].
  - exists 0%N. intros acc. rewrite pretty_N_go_0. f_equal. simpl. lia.
  - destruct (IH (x `div` 10)%N ltac:(apply N.div_lt; lia)
                (String (pretty_N_char (x `mod` 10)) s)) as [k Hk].
    exists (N.succ k). intros acc.
    rewrite pretty_N_go_step by lia. rewrite Hk. simpl.
    rewrite is_nat_pretty_N_char by (apply N.mod_lt; lia).
    f_equal. rewrite N2Nat.id, N.pow_succ_r'.
    pose proof (N.div_mod x 10 ltac:(lia)). lia.
Qed.

Lemma leading_number_pretty (n : nat) (t : string) :
  leading_number 0 (pretty n +:+ t) = leading_number (N.of_nat n) t.
Proof.
  unfold pretty, pretty_nat, pretty, pretty_N.
  destruct (decide (N.of_nat n = 0)%N) as [-> | Hn]; [reflexivity |].
  rewrite pretty_N_go_app. simpl.
  destruct (leading_number_pretty_N_go (N.of_nat n) t) as [k Hk].
  rewrite Hk. f_equal.
Qed.

Lemma leading_number_zeros (k : nat) (t : string) :
  leading_number 0 (zeros k +:+ t) = leading_number 0 t.
Proof. induction k as [| k IH]; [reflexivity | exact IH]. Qed.

Lemma leading_number_segment_dir_name (n : nat) (key_schema_id value_schema_id : Z) :
  leading_number 0 (segment_dir_name n key_schema_id value_schema_id) = N.of_nat n.
Proof.
  unfold segment_dir_name, format_04.
  rewrite string_app_assoc, leading_number_zeros, leading_number_pretty. reflexivity.
Qed.

Lemma segment_dir_name_sequence (n n' : nat) (k k' v v' : Z) :
  segment_dir_name n k v = segment_dir_name n' k' v' -> n = n'.
Proof.
  intros Heq. apply (f_equal (leading_number 0)) in Heq.
  rewrite !leading_number_segment_dir_name in Heq. lia.
Qed.


(** ** The wire header *)

Lemma byte_val_range (b : byte) : 0 <= byte_val b < 256.
Proof. unfold byte_val. pose proof (Byte.to_N_bounded b). lia. Qed.

Lemma shift_in_byte (acc : Z) (b : byte) :
  Z.lor (Z.shiftl acc 8) (byte_val b) = acc * 256 + byte_val b.
Proof.
  pose proof (byte_val_range b) as Hb.
  rewrite <- Z.add_nocarry_lor.
  - rewrite Z.shiftl_mul_pow2 by lia. reflexivity.
  - apply Z.bits_inj_0. intros n. rewrite Z.land_spec.
    destruct (Z.lt_ge_cases n 8) as [Hn | Hn].
    + rewrite Z.shiftl_spec_low by lia. reflexivity.
    + replace (Z.testbit (byte_val b) n) with false; [apply andb_false_r |].
      symmetry. apply (proj1 (Z.bounded_iff_bits_nonneg 8 (byte_val b) ltac:(lia) ltac:(lia)));
        [simpl; lia | lia].
Qed.

Lemma be_uint_4 (b1 b2 b3 b4 : byte) :
  be_uint [b1; b2; b3; b4]
  = byte_val b1 * 2 ^ 24 + byte_val b2 * 2 ^ 16 + byte_val b3 * 2 ^ 8 + byte_val b4.
Proof.
  unfold be_uint. simpl fold_left. rewrite !shift_in_byte. lia.
Qed.

Lemma extract_schema_id_long (b0 b1 b2 b3 b4 : byte) (body : list byte) :
  extract_schema_id (b0 :: b1 :: b2 :: b3 :: b4 :: body) = Ok (be_uint [b1; b2; b3; b4]).
Proof. reflexivity. Qed.

Lemma extract_schema_id_short (message : list byte) :
  (length message < 5)%nat -> extract_schema_id message = Raise MalformedWireFormat.
Proof.
  intros Hlen. do 5 (destruct message as [| ? message]; [reflexivity |]).
  simpl in Hlen. lia.
Qed.

Lemma extract_schema_id_range (message : list byte) (schema_id : Z) :
  extract_schema_id message = Ok schema_id -> 0 <= schema_id < 2 ^ 32.
Proof.
  destruct message as [| b0 [| b1 [| b2 [| b3 [| b4 body]]]]]; try discriminate.
  rewrite extract_schema_id_long, be_uint_4. intros [= <-].
  pose proof (byte_val_range b1). pose proof (byte_val_range b2).
  pose proof (byte_val_range b3). pose proof (byte_val_range b4). lia.
Qed.

(** ** [decode_bytes] *)

Lemma same_archive_refl (w : World) : same_archive w w.
Proof. repeat split. Qed.

Lemma same_archive_trans (w1 w2 w3 : World) :
  same_archive w1 w2 -> same_archive w2 w3 -> same_archive w1 w3.
Proof. unfold same_archive. intuition congruence. Qed.

Lemma decode_bytes_long (b0 b1 b2 b3 b4 : byte) (body : list byte) (w : World) :
  decode_bytes (Some (b0 :: b1 :: b2 :: b3 :: b4 :: body)) w
  = (log_resolver_call (be_uint [b1; b2; b3; b4]) w,
     match get_schema_from_id E (be_uint [b1; b2; b3; b4]) with
     | None => Raise (SchemaLookupFailed (be_uint [b1; b2; b3; b4]))
     | Some schema =>
         match schemaless_reader E body (parsed_schema schema) with
         | Ok record => Ok (be_uint [b1; b2; b3; b4], record)
         | Raise e => Raise e
         end
     end).
Proof.
  unfold decode_bytes, get_schema, bind, lift, modify, ret, raise. simpl.
  destruct (get_schema_from_id E _) as [schema |]; [| reflexivity].
  unfold BytesIO_rest. simpl. rewrite Nat.min_0_r, drop_0.
  destruct (schemaless_reader E body _); reflexivity.
Qed.

Lemma decode_bytes_short (raw : list byte) (w : World) :
  (length raw < 5)%nat -> decode_bytes (Some raw) w = (w, Raise MalformedWireFormat).
Proof.
  intros Hlen.
  destruct raw as [| b0 [| b1 [| b2 [| b3 [| b4 body]]]]]; try reflexivity.
  simpl in Hlen. lia.
Qed.

Lemma decode_bytes_cases (raw_data : option (list byte)) (w : World) :
  decode_bytes raw_data w = (w, decode_result raw_data)
  \/ exists schema_id, 0 <= schema_id < 2 ^ 32
       /\ decode_bytes raw_data w = (log_resolver_call schema_id w, decode_result raw_data).
Proof.
  destruct raw_data as [raw |]; [| left; reflexivity].
  destruct raw as [| b0 [| b1 [| b2 [| b3 [| b4 body]]]]]; try (left; reflexivity).
  right. exists (be_uint [b1; b2; b3; b4]). split.
  - apply (extract_schema_id_range (b0 :: b1 :: b2 :: b3 :: b4 :: body)), extract_schema_id_long.
  - unfold decode_result. rewrite !decode_bytes_long. reflexivity.
Qed.

Lemma decode_bytes_result (raw_data : option (list byte)) (w : World) :
  snd (decode_bytes raw_data w) = decode_result raw_data.
Proof. destruct (decode_bytes_cases raw_data w) as [-> | (? & _ & ->)]; reflexivity. Qed.

Lemma decode_bytes_frame (raw_data : option (list byte)) (w : World) :
  same_archive w (fst (decode_bytes raw_data w)).
Proof.
  destruct (decode_bytes_cases raw_data w) as [-> | (? & _ & ->)]; repeat split.
Qed.

(** [decode_bytes] asks the resolver for header ids only, never for -1. *)
Lemma decode_bytes_resolver_calls (raw_data : option (list byte)) (w : World) :
  exists ids, resolver_calls (fst (decode_bytes raw_data w)) = resolver_calls w ++ ids
              /\ Forall (fun schema_id => 0 <= schema_id < 2 ^ 32) ids.
Proof.
  destruct (decode_bytes_cases raw_data w) as [-> | (schema_id & Hrange & ->)].
  - exists []. rewrite app_nil_r. split; [reflexivity | constructor].
  - exists [schema_id]. split; [reflexivity | constructor; [exact Hrange | constructor]].
Qed.



(** ** One write call *)

Lemma write_message_to_file_unfold (message : Message) :
  write_message_to_file message
  = (let* (key_schema_id, decoded_key) := decode_bytes (msg_key message) in
     let* (value_schema_id, decoded_value) := decode_bytes (msg_value message) in
     archive_decoded {| key := decoded_key; value := decoded_value;
                        key_schema_id := key_schema_id;
                        value_schema_id := value_schema_id |}).
Proof. reflexivity. Qed.

(** The write call after its decoding: the state the rest runs in differs
    from the initial one in the resolver log only. *)
Lemma write_message_to_file_decoded (message : Message) (w : World) :
  exists w0, same_archive w w0 /\
    write_message_to_file message w
    = match decode_result (msg_key message), decode_result (msg_value message) with
      | Ok (key_schema_id, decoded_key), Ok (value_schema_id, decoded_value) =>
          archive_decoded {| key := decoded_key; value := decoded_value;
                             key_schema_id := key_schema_id;
                             value_schema_id := value_schema_id |} w0
      | Ok _, Raise e => (w0, Raise e)
      | Raise e, _ => (w0, Raise e)
      end.
Proof.
  rewrite write_message_to_file_unfold. unfold bind at 1.
  pose proof (decode_bytes_frame (msg_key message) w) as Hk.
  pose proof (decode_bytes_result (msg_key message) w) as Rk.
  destruct (decode_bytes (msg_key message) w) as [w1 rk]. simpl in Hk, Rk. subst rk.
  destruct (decode_result (msg_key message)) as [[key_schema_id decoded_key] | e].
  - unfold bind at 1.
    pose proof (decode_bytes_frame (msg_value message) w1) as Hv.
    pose proof (decode_bytes_result (msg_value message) w1) as Rv.
    destruct (decode_bytes (msg_value message) w1) as [w2 rv]. simpl in Hv, Rv. subst rv.
    exists w2. split; [eapply same_archive_trans; eassumption |].
    destruct (decode_result (msg_value message)) as [[value_schema_id decoded_value] | e];
      reflexivity.
  - exists w1. split; [assumption | reflexivity].
Qed.

Lemma archive_decoded_keep (d : DecodedAvroMessage) (w : World) (name : string) :
  schema_changed (self w) d = false ->
  schema_dir_name (self w) = Some name ->
  archive_decoded d w
  = ({| self := self w; working_dir := working_dir w;
        file := file w ++ [{| record_key := key d; record_value := value d;
                              schema_directory_name := name |}];
        segments := segments w; resolver_calls := resolver_calls w |}, Ok tt).
Proof.
  intros Hsame Hname. unfold archive_decoded, bind, get. simpl.
  rewrite Hsame, Hname. simpl. rewrite Hname. reflexivity.
Qed.

Lemma archive_decoded_open (d : DecodedAvroMessage) (w : World) :
  schema_changed (self w) d || negb (is_not_None (schema_dir_name (self w))) = true ->
  let n := schema_version (self w) in
  let name := segment_dir_name n (key_schema_id d) (value_schema_id d) in
  let w' := fst (archive_decoded d w) in
  let r := snd (archive_decoded d w) in
  self w' = opened_writer n (key_schema_id d) (value_schema_id d) /\
  match working_dir w !! name with
  | Some _ =>
      r = Raise (FileExistsError name) /\ working_dir w' = working_dir w
      /\ segments w' = segments w /\ file w' = file w
  | None =>
      segments w' = segments w ++ [opened_segment n (key_schema_id d) (value_schema_id d)] /\
      match get_schema_from_id E (key_schema_id d) with
      | None =>
          r = Raise (SchemaLookupFailed (key_schema_id d))
          /\ working_dir w' = <[name := ∅]> (working_dir w) /\ file w' = file w
      | Some ks =>
          match get_schema_from_id E (value_schema_id d) with
          | None =>
              r = Raise (SchemaLookupFailed (value_schema_id d))
              /\ working_dir w'
                 = <[name := {["key_schema.avsc" := json_dumps E (original_schema ks)]}]>
                     (working_dir w)
              /\ file w' = file w
          | Some vs =>
              r = Ok tt
              /\ working_dir w'
                 = <[name := <["value_schema.avsc" := json_dumps E (original_schema vs)]>
                               {["key_schema.avsc" := json_dumps E (original_schema ks)]}]>
                     (working_dir w)
              /\ file w' = file w ++ [{| record_key := key d; record_value := value d;
                                         schema_directory_name := name |}]
          end
      end
  end.
Proof.
  intros Hopen. cbv zeta.
  unfold archive_decoded, get_schema, next_schema_version, set_schema_dir_name,
    set_current_key_schema_id, set_current_value_schema_id, mkdir, write_text,
    pickle_dump.
  unfold bind, modify, ret, raise, get. simpl. rewrite Hopen. simpl.
  destruct (working_dir w !! _) as [files |] eqn:Hdir; simpl.
  { repeat split; reflexivity. }
  destruct (get_schema_from_id E (key_schema_id d)) as [ks |]; simpl;
    [| repeat split; reflexivity].
  rewrite lookup_insert_eq. simpl.
  destruct (get_schema_from_id E (value_schema_id d)) as [vs |]; simpl.
  - rewrite lookup_insert_eq. simpl. rewrite !insert_insert_eq.
    repeat split; reflexivity.
  - rewrite insert_insert_eq. repeat split; reflexivity.
Qed.

(** The outcome of a write call whose payloads decode, in a state where the
    next segment name is free. *)
Lemma archive_decoded_fresh (d : DecodedAvroMessage) (w : World) :
  schema_changed (self w) d || negb (is_not_None (schema_dir_name (self w))) = true ->
  let n := schema_version (self w) in
  let name := segment_dir_name n (key_schema_id d) (value_schema_id d) in
  let w' := fst (archive_decoded d w) in
  working_dir w !! name = None ->
  self w' = opened_writer n (key_schema_id d) (value_schema_id d)
  /\ segments w' = segments w ++ [opened_segment n (key_schema_id d) (value_schema_id d)]
  /\ exists files, working_dir w' = <[name := files]> (working_dir w).
Proof.
  intros Hopen n name w' Hfree.
  destruct (archive_decoded_open d w Hopen) as [Hself Hrest].
  fold n name w' in Hself, Hrest. rewrite Hfree in Hrest.
  destruct Hrest as [Hsegs Hrest]. split; [exact Hself |]. split; [exact Hsegs |].
  destruct (get_schema_from_id E (key_schema_id d));
    [destruct (get_schema_from_id E (value_schema_id d)) |];
    destruct Hrest as (_ & Hdir & _); eauto.
Qed.

(** ** The invariant of a writer session *)

Lemma writer_invariant_initial : writer_invariant initial_world.
Proof.
  split; simpl; try reflexivity.
  - intros i s Hs. destruct i; discriminate.
  - intros name [files Hfiles]. rewrite lookup_empty in Hfiles. discriminate.
Qed.

Lemma writer_invariant_same (w w' : World) :
  same_archive w w' -> writer_invariant w -> writer_invariant w'.
Proof.
  intros (Hself & Hdir & _ & Hsegs) [I1 I2 I3 I4].
  split; rewrite ?Hself, ?Hdir, ?Hsegs; assumption.
Qed.

(** In a state of a session the name of the next segment is not taken. *)
Lemma next_name_free (w : World) (k v : Z) :
  writer_invariant w ->
  working_dir w !! segment_dir_name (schema_version (self w)) k v = None.
Proof.
  intros [I1 I2 I3 _].
  destruct (working_dir w !! _) as [files |] eqn:Hdir; [| reflexivity].
  destruct (I3 _ (ex_intro _ files Hdir)) as (s & Hin & Hname).
  apply list_elem_of_lookup in Hin as [i Hi].
  pose proof (lookup_lt_Some _ _ _ Hi) as Hlt.
  rewrite (I2 i s Hi) in Hname. simpl in Hname.
  apply segment_dir_name_sequence in Hname. lia.
Qed.

Lemma writer_invariant_opened (w w' : World) (k v : Z) (files : gmap string string) :
  writer_invariant w ->
  self w' = opened_writer (schema_version (self w)) k v ->
  segments w' = segments w ++ [opened_segment (schema_version (self w)) k v] ->
  working_dir w' = <[segment_dir_name (schema_version (self w)) k v := files]> (working_dir w) ->
  writer_invariant w'.
Proof.
  intros [I1 I2 I3 I4] Hself Hsegs Hdir. split.
  - rewrite Hself, Hsegs, length_app. simpl. lia.
  - intros i s. rewrite Hsegs. intros Hs.
    apply lookup_app_Some in Hs as [Hs | [Hge Hs]]; [eauto |].
    destruct (i - length (segments w))%nat as [| j] eqn:Hj; [| destruct j; discriminate].
    injection Hs as <-. simpl. f_equal. lia.
  - intros name. rewrite Hdir, Hsegs.
    destruct (decide (segment_dir_name (schema_version (self w)) k v = name)) as [<- | Hne].
    + intros _. eexists. split; [apply elem_of_app; right; apply list_elem_of_singleton; reflexivity |].
      reflexivity.
    + rewrite lookup_insert_ne by assumption. intros Hsome.
      destruct (I3 name Hsome) as (s & Hin & Hname).
      exists s. split; [apply elem_of_app; left |]; assumption.
  - rewrite Hsegs, last_snoc. exact Hself.
Qed.

Lemma writer_invariant_archive_decoded (d : DecodedAvroMessage) (w : World) :
  writer_invariant w -> writer_invariant (fst (archive_decoded d w)).
Proof.
  intros Hinv.
  destruct (schema_changed (self w) d || negb (is_not_None (schema_dir_name (self w))))
    eqn:Hopen.
  - destruct (archive_decoded_fresh d w Hopen (next_name_free w _ _ Hinv))
      as (Hself & Hsegs & files & Hdir).
    eapply writer_invariant_opened; eassumption.
  - apply orb_false_iff in Hopen as [Hsame Hname].
    destruct (schema_dir_name (self w)) as [name |] eqn:Hdir; [| discriminate].
    rewrite (archive_decoded_keep d w name Hsame Hdir). simpl.
    destruct Hinv as [I1 I2 I3 I4]. split; assumption.
Qed.

Lemma writer_invariant_write (message : Message) (w : World) :
  writer_invariant w -> writer_invariant (fst (write_message_to_file message w)).
Proof.
  intros Hinv.
  destruct (write_message_to_file_decoded message w) as (w0 & Hsame & ->).
  pose proof (writer_invariant_same _ _ Hsame Hinv) as Hinv0.
  destruct (decode_result (msg_key message)) as [[kid dk] | e]; [| exact Hinv0].
  destruct (decode_result (msg_value message)) as [[vid dv] | e]; [| exact Hinv0].
  apply writer_invariant_archive_decoded, Hinv0.
Qed.

Lemma writer_invariant_write_messages (messages : list Message) (w : World) :
  writer_invariant w -> writer_invariant (fst (write_messages messages w)).
Proof.
  revert w. induction messages as [| message rest IH]; intros w Hinv; [exact Hinv |].
  simpl. pose proof (writer_invariant_write message w Hinv) as Hstep.
  destruct (write_message_to_file message w) as [w1 r]. simpl in Hstep.
  specialize (IH w1 Hstep). destruct (write_messages rest w1) as [w2 rs]. exact IH.
Qed.

Lemma writer_invariant_session (messages : list Message) :
  writer_invariant (fst (write_messages messages initial_world)).
Proof. apply writer_invariant_write_messages, writer_invariant_initial. Qed.

(** ** Header decoding *)

(** C8. An absent payload decodes to schema id -1 and no value, and leaves the
    state (the log of resolver calls included) as it was.  A payload of five
    bytes or more decodes to the schema id that its bytes 1 to 4 spell as a
    big-endian unsigned 32-bit integer, the resolver is asked for that id, and
    the Avro reader is given exactly the bytes after byte 4. *)
Theorem decode_bytes_header :
  (forall w : World, decode_bytes None w = (w, Ok (-1, None)))
  /\ (forall (b0 b1 b2 b3 b4 : byte) (body : list byte) (w : World),
        let schema_id :=
          byte_val b1 * 2 ^ 24 + byte_val b2 * 2 ^ 16 + byte_val b3 * 2 ^ 8 + byte_val b4 in
        0 <= schema_id < 2 ^ 32
        /\ extract_schema_id (b0 :: b1 :: b2 :: b3 :: b4 :: body) = Ok schema_id
        /\ decode_bytes (Some (b0 :: b1 :: b2 :: b3 :: b4 :: body)) w
           = (log_resolver_call schema_id w,
              match get_schema_from_id E schema_id with
              | None => Raise (SchemaLookupFailed schema_id)
              | Some schema =>
                  match schemaless_reader E body (parsed_schema schema) with
                  | Ok record => Ok (schema_id, record)
                  | Raise e => Raise e
                  end
              end)).
Proof.
  split; [reflexivity |]. intros b0 b1 b2 b3 b4 body w schema_id.
  assert (be_uint [b1; b2; b3; b4] = schema_id) as Hid by apply be_uint_4.
  pose proof (extract_schema_id_long b0 b1 b2 b3 b4 body) as Hext.
  pose proof (decode_bytes_long b0 b1 b2 b3 b4 body w) as Hdec.
  rewrite Hid in Hext, Hdec.
  split; [exact (extract_schema_id_range _ _ Hext) |]. split; assumption.
Qed.

(** C10. Byte 0 of a payload is not looked at: two payloads of five bytes or
    more that differ in byte 0 only give the same header decoding, which
    succeeds, and the same outcome of [decode_bytes]. *)
Theorem marker_byte_ignored (b0 b0' b1 b2 b3 b4 : byte) (body : list byte) (w : World) :
  extract_schema_id (b0 :: b1 :: b2 :: b3 :: b4 :: body) = Ok (be_uint [b1; b2; b3; b4])
  /\ extract_schema_id (b0' :: b1 :: b2 :: b3 :: b4 :: body)
     = extract_schema_id (b0 :: b1 :: b2 :: b3 :: b4 :: body)
  /\ decode_bytes (Some (b0' :: b1 :: b2 :: b3 :: b4 :: body)) w
     = decode_bytes (Some (b0 :: b1 :: b2 :: b3 :: b4 :: body)) w.
Proof.
  split; [reflexivity |]. split; [reflexivity |].
  rewrite !decode_bytes_long. reflexivity.
Qed.

(** ** Malformed payloads *)

Lemma decode_result_short (raw : list byte) :
  (length raw < 5)%nat -> decode_result (Some raw) = Raise MalformedWireFormat.
Proof.
  intros Hlen. unfold decode_result. rewrite decode_bytes_short by assumption. reflexivity.
Qed.

(** C5 (amended). A write call whose key or value payload is present but
    shorter than five bytes raises, appends no record, makes no segment and
    leaves the writer's attributes as they were.  The error is
    MalformedWireFormat, unless decoding the key raises first: then it is the
    key's error. *)
Theorem short_payload_aborts (message : Message) (w : World) :
  (exists raw, (msg_key message = Some raw \/ msg_value message = Some raw)
               /\ (length raw < 5)%nat) ->
  let w' := fst (write_message_to_file message w) in
  snd (write_message_to_file message w)
  = match decode_result (msg_key message) with
    | Raise e => Raise e
    | Ok _ => Raise MalformedWireFormat
    end
  /\ self w' = self w /\ working_dir w' = working_dir w
  /\ file w' = file w /\ segments w' = segments w.
Proof.
  intros (raw & Hraw & Hlen) w'. subst w'.
  destruct (write_message_to_file_decoded message w) as (w0 & Hsame & ->).
  destruct Hraw as [Hkey | Hvalue].
  - rewrite Hkey, decode_result_short by assumption. split; [reflexivity | exact Hsame].
  - destruct (decode_result (msg_key message)) as [[kid dk] | e];
      [| split; [reflexivity | exact Hsame]].
    rewrite Hvalue, decode_result_short by assumption. split; [reflexivity | exact Hsame].
Qed.

(** ** When a segment is opened *)

Lemma schema_changed_true (s : AvroFileWriter) (d : DecodedAvroMessage) :
  schema_changed s d = true
  <-> (current_value_schema_id s <> Some (value_schema_id d) /\ value d <> None)
      \/ current_key_schema_id s <> Some (key_schema_id d).
Proof.
  unfold schema_changed.
  rewrite orb_true_iff, andb_true_iff, !bool_decide_eq_true.
  destruct (value d); simpl; intuition congruence.
Qed.

Lemma no_segment_yet (w : World) :
  writer_invariant w -> (schema_dir_name (self w) = None <-> segments w = []).
Proof.
  intros [_ _ _ I4]. destruct (segments w) as [| s l] using rev_ind.
  - simpl in I4. rewrite I4. split; reflexivity.
  - rewrite last_snoc in I4. rewrite I4. simpl. split; [discriminate |].
    intros Habs. apply app_eq_nil in Habs as [_ Habs]. discriminate.
Qed.

(** In a state of a session the writer's attributes are those of the last
    segment made. *)
Lemma last_segment_attributes (w : World) :
  writer_invariant w ->
  match last (segments w) with
  | None => self w = new_writer
  | Some s =>
      self w = opened_writer (length (segments w)) (segment_key_schema_id s)
                             (segment_value_schema_id s)
      /\ s = opened_segment (length (segments w)) (segment_key_schema_id s)
                            (segment_value_schema_id s)
  end.
Proof.
  intros Hinv. pose proof (inv_current w Hinv) as Hcur.
  destruct (last (segments w)) as [s |] eqn:Hlast; [| exact Hcur].
  rewrite last_lookup in Hlast.
  pose proof (lookup_lt_Some _ _ _ Hlast) as Hlt.
  pose proof (inv_segments w Hinv _ s Hlast) as Hs.
  replace (S (pred (length (segments w)))) with (length (segments w)) in Hs by lia.
  pose proof (f_equal sequence Hs) as Hq. simpl in Hq.
  rewrite Hq in Hcur. split; assumption.
Qed.

(** A write call whose payloads decode, in a state of a writer session. *)
Lemma write_in_session (w : World) (message : Message)
    (kid vid : Z) (dk dv : option (Datum E)) :
  writer_invariant w ->
  decode_result (msg_key message) = Ok (kid, dk) ->
  decode_result (msg_value message) = Ok (vid, dv) ->
  let w' := fst (write_message_to_file message w) in
  let opened := opened_segment (schema_version (self w)) kid vid in
  ((segments w = []
    \/ current_key_schema_id (self w) <> Some kid
    \/ (current_value_schema_id (self w) <> Some vid /\ dv <> None))
   <-> segments w' = segments w ++ [opened])
  /\ (segments w' = segments w ++ [opened]
      /\ working_dir w !! segment_name opened = None
      /\ is_Some (working_dir w' !! segment_name opened)
      \/ segments w' = segments w /\ working_dir w' = working_dir w /\ self w' = self w)
  /\ (dv = None -> segments w <> [] -> current_key_schema_id (self w) = Some kid ->
      segments w' = segments w).
Proof.
  intros Hinv Hkey Hvalue w' opened.
  subst w'. destruct (write_message_to_file_decoded message w) as (w0 & Hsame & ->).
  rewrite Hkey, Hvalue.
  pose proof (writer_invariant_same _ _ Hsame Hinv) as Hinv0.
  pose proof (no_segment_yet w Hinv) as Hnone.
  destruct Hsame as (Hself & Hdir & Hfile & Hsegs).
  set (d := {| key := dk; value := dv; key_schema_id := kid; value_schema_id := vid |}).
  destruct (schema_changed (self w0) d || negb (is_not_None (schema_dir_name (self w0))))
    eqn:Hopen.
  - pose proof (next_name_free w0 kid vid Hinv0) as Hfree.
    destruct (archive_decoded_fresh d w0 Hopen Hfree) as (Hself' & Hsegs' & files & Hdir').
    simpl in Hself', Hsegs', Hdir'. rewrite Hself, Hsegs in Hsegs'. rewrite Hself, Hdir in Hdir'.
    rewrite Hself, Hdir in Hfree.
    assert (segments w = []
            \/ current_key_schema_id (self w) <> Some kid
            \/ (current_value_schema_id (self w) <> Some vid /\ dv <> None)) as Htrig.
    { apply orb_true_iff in Hopen as [Hch | Hno].
      - apply schema_changed_true in Hch. rewrite Hself in Hch. simpl in Hch. tauto.
      - left. apply Hnone. rewrite Hself in Hno.
        destruct (schema_dir_name (self w)); [discriminate | reflexivity]. }
    split; [split; intros _; assumption |]. split.
    + left. split; [exact Hsegs' |]. split; [exact Hfree |].
      rewrite Hdir'. simpl. rewrite lookup_insert_eq. eauto.
    + intros Hdv Hne Hk. destruct Htrig as [? | [? | [_ ?]]]; contradiction.
  - apply orb_false_iff in Hopen as [Hch Hno].
    destruct (schema_dir_name (self w0)) as [name |] eqn:Hname; [| discriminate].
    rewrite (archive_decoded_keep d w0 name Hch Hname). simpl. rewrite Hself, Hdir, Hsegs.
    assert (~ (segments w = []
               \/ current_key_schema_id (self w) <> Some kid
               \/ (current_value_schema_id (self w) <> Some vid /\ dv <> None))) as Htrig.
    { intros [Hnil | Hchanged].
      - apply Hnone in Hnil. rewrite Hself in Hname. congruence.
      - assert (schema_changed (self w0) d = true) as Habs; [| congruence].
        apply schema_changed_true. rewrite Hself. simpl. tauto. }
    split; [split; [intros; contradiction |] |].
    + intros Habs. apply (f_equal length) in Habs. rewrite length_app in Habs.
      simpl in Habs. lia.
    + split; [right; repeat split | reflexivity].
Qed.

(** C1. In a writer session the writer's current schema ids are those of the
    last segment made (none before the first).  A write call whose payloads
    decode opens a new segment exactly when there is no segment yet, or the
    key schema id is not the current one, or the value schema id is not the
    current one and the decoded value is present.  Otherwise nothing is
    opened; in particular a message without value never opens a segment when
    the last segment has the message's key schema id.  A call whose key or
    value does not decode opens nothing either. *)
Theorem segment_opened_iff (messages : list Message) (message : Message)
    (kid vid : Z) (dk dv : option (Datum E)) :
  decode_result (msg_key message) = Ok (kid, dk) ->
  decode_result (msg_value message) = Ok (vid, dv) ->
  let w := fst (write_messages messages initial_world) in
  let w' := fst (write_message_to_file message w) in
  let opened := opened_segment (schema_version (self w)) kid vid in
  (schema_version (self w) = S (length (segments w))
   /\ match last (segments w) with
      | None =>
          current_key_schema_id (self w) = None
          /\ current_value_schema_id (self w) = None
      | Some s =>
          current_key_schema_id (self w) = Some (segment_key_schema_id s)
          /\ current_value_schema_id (self w) = Some (segment_value_schema_id s)
      end)
  /\ ((segments w = []
       \/ current_key_schema_id (self w) <> Some kid
       \/ (current_value_schema_id (self w) <> Some vid /\ dv <> None))
      <-> segments w' = segments w ++ [opened])
  /\ ((segments w = []
       \/ exists s, last (segments w) = Some s
            /\ (segment_key_schema_id s <> kid
                \/ (segment_value_schema_id s <> vid /\ dv <> None)))
      <-> segments w' = segments w ++ [opened])
  /\ (segments w' = segments w ++ [opened]
      /\ working_dir w !! segment_name opened = None
      /\ is_Some (working_dir w' !! segment_name opened)
      \/ segments w' = segments w /\ working_dir w' = working_dir w /\ self w' = self w)
  /\ (dv = None -> segments w <> [] -> current_key_schema_id (self w) = Some kid ->
      segments w' = segments w)
  /\ (forall s, dv = None -> last (segments w) = Some s -> segment_key_schema_id s = kid ->
      segments w' = segments w /\ working_dir w' = working_dir w /\ self w' = self w)
  /\ (forall other e,
        decode_result (msg_key other) = Raise e
        \/ decode_result (msg_value other) = Raise e ->
        segments (fst (write_message_to_file other w)) = segments w
        /\ working_dir (fst (write_message_to_file other w)) = working_dir w
        /\ self (fst (write_message_to_file other w)) = self w).
Proof.
  intros Hkey Hvalue w w' opened.
  pose proof (writer_invariant_session messages) as Hinv. fold w in Hinv.
  destruct (write_in_session w message kid vid dk dv Hinv Hkey Hvalue)
    as (Hiff & Hcases & Htomb).
  fold w' opened in Hiff, Hcases, Htomb.
  pose proof (last_segment_attributes w Hinv) as Hlast.
  assert (match last (segments w) with
          | None =>
              current_key_schema_id (self w) = None
              /\ current_value_schema_id (self w) = None
          | Some s =>
              current_key_schema_id (self w) = Some (segment_key_schema_id s)
              /\ current_value_schema_id (self w) = Some (segment_value_schema_id s)
          end) as Hcur.
  { destruct (last (segments w)) as [s |].
    - destruct Hlast as [-> _]. split; reflexivity.
    - rewrite Hlast. split; reflexivity. }
  split; [split; [exact (inv_counter w Hinv) | exact Hcur] |].
  split; [exact Hiff |].
  assert ((segments w = []
           \/ exists s, last (segments w) = Some s
                /\ (segment_key_schema_id s <> kid
                    \/ (segment_value_schema_id s <> vid /\ dv <> None)))
          <-> (segments w = []
               \/ current_key_schema_id (self w) <> Some kid
               \/ (current_value_schema_id (self w) <> Some vid /\ dv <> None))) as Hsame.
  { destruct (last (segments w)) as [s |] eqn:Hs.
    - destruct Hcur as [Hk Hv]. rewrite Hk, Hv. split.
      + intros [Hnil | (s' & [= <-] & [Hne | [Hne Hdv]])]; [left; exact Hnil | |].
        * right. left. congruence.
        * right. right. split; [congruence | exact Hdv].
      + intros [Hnil | [Hne | [Hne Hdv]]]; [left; exact Hnil | |]; right; exists s;
          (split; [reflexivity |]).
        * left. congruence.
        * right. split; [congruence | exact Hdv].
    - apply last_None in Hs. split; intros _; left; exact Hs. }
  split; [rewrite Hsame; exact Hiff |].
  split; [exact Hcases |]. split; [exact Htomb |]. split.
  - intros s Hdv Hs Hk. rewrite Hs in Hcur. destruct Hcur as [Hck Hcv].
    destruct Hcases as [(Hopened & _) | Hkept]; [| exact Hkept].
    apply Hiff in Hopened. destruct Hopened as [Hnil | [Hne | [_ Hne]]].
    + rewrite Hnil in Hs. discriminate.
    + exfalso. apply Hne. congruence.
    + contradiction.
  - intros other e Hfail.
    destruct (write_message_to_file_decoded other w)
      as (w0 & (Hself0 & Hdir0 & _ & Hsegs0) & ->).
    destruct (decode_result (msg_key other)) as [[k0 dk0] | e1];
      [destruct (decode_result (msg_value other)) as [[v0 dv0] | e2] |].
    + destruct Hfail; discriminate.
    + simpl. repeat split; assumption.
    + simpl. repeat split; assumption.
Qed.

(** ** Segment names within a session *)

Lemma session_names_below (w : World) (s : Segment) (k v : Z) :
  writer_invariant w -> s ∈ segments w ->
  segment_name s <> segment_dir_name (S (length (segments w))) k v.
Proof.
  intros Hinv Hin Hname. apply list_elem_of_lookup in Hin as [i Hi].
  pose proof (lookup_lt_Some _ _ _ Hi) as Hlt.
  rewrite (inv_segments w Hinv i s Hi) in Hname. simpl in Hname.
  apply segment_dir_name_sequence in Hname. lia.
Qed.

(** ** The key schema id of a segment *)

Lemma decode_result_origin (raw_data : option (list byte)) (schema_id : Z)
    (record : option (Datum E)) :
  decode_result raw_data = Ok (schema_id, record) ->
  raw_data = None /\ schema_id = -1
  \/ exists raw, raw_data = Some raw /\ extract_schema_id raw = Ok schema_id
                 /\ 0 <= schema_id < 2 ^ 32.
Proof.
  destruct raw_data as [raw |]; [| intros [= <- _]; left; split; reflexivity].
  intros Hdec. right. exists raw. split; [reflexivity |].
  destruct (le_lt_dec 5 (length raw)) as [Hlen | Hlen].
  - destruct raw as [| b0 [| b1 [| b2 [| b3 [| b4 body]]]]]; simpl in Hlen; try lia.
    unfold decode_result in Hdec. rewrite decode_bytes_long in Hdec. simpl in Hdec.
    assert (schema_id = be_uint [b1; b2; b3; b4]) as ->.
    { destruct (get_schema_from_id E _); [| discriminate].
      destruct (schemaless_reader E _ _); [| discriminate]. congruence. }
    split; [reflexivity |].
    apply (extract_schema_id_range (b0 :: b1 :: b2 :: b3 :: b4 :: body)). reflexivity.
  - rewrite decode_result_short in Hdec by assumption. discriminate.
Qed.

Lemma key_schema_id_from_write (message : Message) (w : World) (earlier : list Message) :
  Forall (key_schema_id_from earlier) (segments w) ->
  Forall (key_schema_id_from (earlier ++ [message]))
         (segments (fst (write_message_to_file message w))).
Proof.
  intros Hold.
  assert (Forall (key_schema_id_from (earlier ++ [message])) (segments w)) as Hold'.
  { eapply Forall_impl; [exact Hold |]. intros s (m & Hm & Horigin).
    exists m. split; [apply elem_of_app; left |]; assumption. }
  destruct (write_message_to_file_decoded message w) as (w0 & Hsame & ->).
  destruct Hsame as (_ & _ & _ & Hsegs).
  destruct (decode_result (msg_key message)) as [[kid dk] | e] eqn:Hkey;
    [| simpl; rewrite Hsegs; exact Hold'].
  destruct (decode_result (msg_value message)) as [[vid dv] | e] eqn:Hvalue;
    [| simpl; rewrite Hsegs; exact Hold'].
  set (d := {| key := dk; value := dv; key_schema_id := kid; value_schema_id := vid |}).
  destruct (schema_changed (self w0) d || negb (is_not_None (schema_dir_name (self w0))))
    eqn:Hopen.
  - destruct (archive_decoded_open d w0 Hopen) as [_ Hrest].
    destruct (working_dir w0 !! _).
    + destruct Hrest as (_ & _ & -> & _). rewrite Hsegs. exact Hold'.
    + destruct Hrest as [-> _]. rewrite Hsegs. apply Forall_app. split; [exact Hold' |].
      apply Forall_singleton. exists message.
      split; [apply elem_of_app; right; apply list_elem_of_singleton; reflexivity |].
      simpl. exact (decode_result_origin _ _ _ Hkey).
  - apply orb_false_iff in Hopen as [Hch Hno].
    destruct (schema_dir_name (self w0)) as [name |] eqn:Hname; [| discriminate].
    rewrite (archive_decoded_keep d w0 name Hch Hname). simpl. rewrite Hsegs. exact Hold'.
Qed.

Lemma key_schema_id_from_write_messages (messages earlier : list Message) (w : World) :
  Forall (key_schema_id_from earlier) (segments w) ->
  Forall (key_schema_id_from (earlier ++ messages))
         (segments (fst (write_messages messages w))).
Proof.
  revert earlier w. induction messages as [| message rest IH]; intros earlier w Hold.
  - rewrite app_nil_r. exact Hold.
  - simpl. pose proof (key_schema_id_from_write message w earlier Hold) as Hstep.
    destruct (write_message_to_file message w) as [w1 r]. simpl in Hstep.
    specialize (IH _ _ Hstep). destruct (write_messages rest w1) as [w2 rs].
    rewrite <- app_assoc in IH. exact IH.
Qed.

(** C3 (amended). In every writer session, whatever the messages and whether
    or not the calls succeed, the key schema id of each segment is that of one
    of the messages: -1 when that message has no key, and otherwise the
    id in the header of its key, which lies in 0 .. 2^32 - 1. *)
Theorem segment_key_schema_id_origin (messages : list Message) :
  Forall (fun s =>
            (segment_key_schema_id s = -1 \/ 0 <= segment_key_schema_id s < 2 ^ 32)
            /\ key_schema_id_from messages s)
         (segments (fst (write_messages messages initial_world))).
Proof.
  pose proof (key_schema_id_from_write_messages messages [] initial_world (Forall_nil_2 _))
    as Hfrom.
  simpl in Hfrom. eapply Forall_impl; [exact Hfrom |].
  intros s Hs. split; [| exact Hs].
  destruct Hs as (m & _ & [[_ ->] | (raw & _ & _ & Hrange)]); [left | right]; tauto.
Qed.

(** ** A stream with one schema pair *)

Lemma write_same_pair (message : Message) (w : World) (n : nat) (kid vid : Z)
    (dk dv : option (Datum E)) :
  self w = opened_writer n kid vid ->
  decode_result (msg_key message) = Ok (kid, dk) ->
  decode_result (msg_value message) = Ok (vid, dv) ->
  let w' := fst (write_message_to_file message w) in
  snd (write_message_to_file message w) = Ok tt
  /\ self w' = self w /\ segments w' = segments w /\ working_dir w' = working_dir w
  /\ file w' = file w ++ [{| record_key := dk; record_value := dv;
                             schema_directory_name := segment_dir_name n kid vid |}].
Proof.
  intros Hself Hkey Hvalue w'. subst w'.
  destruct (write_message_to_file_decoded message w) as (w0 & Hsame & ->).
  rewrite Hkey, Hvalue. destruct Hsame as (Hself0 & Hdir & Hfile & Hsegs).
  rewrite Hself in Hself0.
  rewrite (archive_decoded_keep _ w0 (segment_dir_name n kid vid)).
  - simpl. rewrite Hself, Hself0, Hdir, Hfile, Hsegs. repeat split.
  - unfold schema_changed. rewrite Hself0. simpl.
    rewrite !bool_decide_eq_false_2 by (intros Hne; apply Hne; reflexivity). reflexivity.
  - rewrite Hself0. reflexivity.
Qed.

Lemma write_messages_same_pair (messages : list Message) (w : World) (n : nat) (kid vid : Z) :
  self w = opened_writer n kid vid ->
  Forall (decodes_to_pair kid vid) messages ->
  let w' := fst (write_messages messages w) in
  segments w' = segments w
  /\ exists records, file w' = file w ++ records
       /\ length records = length messages
       /\ Forall (fun r => schema_directory_name r = segment_dir_name n kid vid) records.
Proof.
  revert w. induction messages as [| message rest IH]; intros w Hself Hall w'; subst w'.
  - simpl. split; [reflexivity |]. exists []. rewrite app_nil_r. repeat split. constructor.
  - apply Forall_cons in Hall as [(dk & dv & Hkey & Hvalue) Hall].
    destruct (write_same_pair message w n kid vid dk dv Hself Hkey Hvalue)
      as (_ & Hself1 & Hsegs1 & _ & Hfile1).
    simpl. destruct (write_message_to_file message w) as [w1 r].
    simpl in Hself1, Hsegs1, Hfile1. rewrite Hself in Hself1.
    destruct (IH w1 Hself1 Hall) as (Hsegs & records & Hfile & Hlen & Hnames).
    destruct (write_messages rest w1) as [w2 rs]. simpl in Hsegs, Hfile |- *.
    split; [congruence |]. eexists (_ :: records).
    rewrite Hfile, Hfile1, <- app_assoc. split; [reflexivity |].
    split; [simpl; congruence |]. constructor; [reflexivity | exact Hnames].
Qed.

(** A new writer given one message or more, all decoding to one pair of
    schema ids, makes exactly one segment, numbered 1 and named after the
    pair, and every record it appends carries that name.  It appends a record
    for every message when the registry resolves both ids; otherwise the first
    call raises once the segment is made, and a record is appended for each
    later message only. *)
Lemma one_pair_one_segment (messages : list Message) (kid vid : Z) :
  messages <> [] ->
  Forall (decodes_to_pair kid vid) messages ->
  let w := fst (write_messages messages initial_world) in
  segments w = [opened_segment 1 kid vid]
  /\ Forall (fun r => schema_directory_name r = segment_dir_name 1 kid vid) (file w)
  /\ length (file w)
     = match get_schema_from_id E kid, get_schema_from_id E vid with
       | Some _, Some _ => length messages
       | _, _ => pred (length messages)
       end.
Proof.
  intros Hne Hall. destruct messages as [| message rest]; [contradiction |].
  apply Forall_cons in Hall as [(dk & dv & Hkey & Hvalue) Hall]. simpl.
  destruct (write_message_to_file_decoded message initial_world) as (w0 & Hsame & Hwrite).
  rewrite Hkey, Hvalue in Hwrite. destruct Hsame as (Hself & Hdir & Hfile & Hsegs).
  set (d := {| key := dk; value := dv; key_schema_id := kid; value_schema_id := vid |})
    in Hwrite.
  assert (schema_changed (self w0) d || negb (is_not_None (schema_dir_name (self w0))) = true)
    as Hopen by (rewrite Hself; apply orb_true_r).
  destruct (archive_decoded_open d w0 Hopen) as [Hself1 Hrest].
  rewrite Hdir, Hself, Hsegs, Hfile in Hrest. rewrite Hself in Hself1.
  simpl in Hself1, Hrest. rewrite lookup_empty in Hrest. destruct Hrest as [Hsegs1 Hrest].
  rewrite <- Hwrite in Hself1, Hsegs1, Hrest.
  destruct (write_message_to_file message initial_world) as [w1 r].
  simpl in Hself1, Hsegs1, Hrest.
  destruct (write_messages_same_pair rest w1 1 kid vid Hself1 Hall)
    as (Hsegs2 & records & Hfile2 & Hlen & Hnames).
  destruct (write_messages rest w1) as [w2 rs]. simpl in Hsegs2, Hfile2 |- *.
  split; [congruence |]. rewrite Hfile2.
  destruct (get_schema_from_id E kid) as [ks |];
    [destruct (get_schema_from_id E vid) as [vs |] |];
    destruct Hrest as (_ & _ & ->).
  - split; [constructor; [reflexivity | exact Hnames] | simpl; congruence].
  - split; [exact Hnames | simpl; congruence].
  - split; [exact Hnames | simpl; congruence].
Qed.

(** ** Resolver calls when a segment is opened *)

Lemma archive_decoded_open_calls (d : DecodedAvroMessage) (w : World) :
  schema_changed (self w) d || negb (is_not_None (schema_dir_name (self w))) = true ->
  working_dir w !! segment_dir_name (schema_version (self w)) (key_schema_id d)
                     (value_schema_id d) = None ->
  resolver_calls (fst (archive_decoded d w))
  = resolver_calls w
    ++ key_schema_id d
       :: match get_schema_from_id E (key_schema_id d) with
          | Some _ => [value_schema_id d]
          | None => []
          end.
Proof.
  intros Hopen Hfree.
  unfold archive_decoded, get_schema, next_schema_version, set_schema_dir_name,
    set_current_key_schema_id, set_current_value_schema_id, mkdir, write_text,
    pickle_dump.
  unfold bind, modify, ret, raise, get. simpl. rewrite Hopen. simpl. rewrite Hfree. simpl.
  destruct (get_schema_from_id E (key_schema_id d)) as [ks |]; simpl; [| reflexivity].
  rewrite lookup_insert_eq. simpl.
  destruct (get_schema_from_id E (value_schema_id d)) as [vs |]; simpl.
  - rewrite lookup_insert_eq. simpl. rewrite <- app_assoc. reflexivity.
  - rewrite <- app_assoc. reflexivity.
Qed.

(** Whatever the registry, the first message of a new writer makes it ask the
    resolver for -1 as soon as its key or its value is absent. *)
Lemma first_message_resolves_sentinel (message : Message)
    (kid vid : Z) (dk dv : option (Datum E)) :
  decode_result (msg_key message) = Ok (kid, dk) ->
  decode_result (msg_value message) = Ok (vid, dv) ->
  msg_key message = None \/ msg_value message = None ->
  -1 ∈ resolver_calls (fst (write_message_to_file message initial_world)).
Proof.
  intros Hkey Hvalue Habsent.
  destruct (write_message_to_file_decoded message initial_world) as (w0 & Hsame & ->).
  rewrite Hkey, Hvalue. destruct Hsame as (Hself & Hdir & _ & _).
  rewrite archive_decoded_open_calls.
  - simpl. apply elem_of_app. right.
    destruct (msg_key message) as [raw |] eqn:Hraw.
    + destruct Habsent as [? | Hnone]; [discriminate |]. rewrite Hnone in Hvalue.
      injection Hvalue as <- <-.
      destruct (get_schema_from_id E kid) eqn:Hks; [right; left |].
      exfalso. unfold decode_result in Hkey.
      destruct raw as [| b0 [| b1 [| b2 [| b3 [| b4 body]]]]]; try discriminate.
      rewrite decode_bytes_long in Hkey. simpl in Hkey.
      destruct (get_schema_from_id E (be_uint [b1; b2; b3; b4])) eqn:Hreg; [| discriminate].
      destruct (schemaless_reader E body _); [| discriminate].
      injection Hkey as <- <-. congruence.
    + injection Hkey as <- <-. left.
  - rewrite Hself. apply orb_true_r.
  - rewrite Hdir. apply lookup_empty.
Qed.

(** ** Reading an archive back *)

Lemma schema_changed_false (s : AvroFileWriter) (d : DecodedAvroMessage) :
  schema_changed s d = false ->
  current_key_schema_id s = Some (key_schema_id d)
  /\ (value d <> None -> current_value_schema_id s = Some (value_schema_id d)).
Proof.
  intros Hsame. split.
  - destruct (decide (current_key_schema_id s = Some (key_schema_id d))) as [? | Hne];
      [assumption |].
    assert (schema_changed s d = true) by (apply schema_changed_true; tauto). congruence.
  - intros Hvalue.
    destruct (decide (current_value_schema_id s = Some (value_schema_id d))) as [? | Hne];
      [assumption |].
    assert (schema_changed s d = true) by (apply schema_changed_true; tauto). congruence.
Qed.

Lemma segment_holds_insert (dirs : gmap string (gmap string string)) (name name' : string)
    (files : gmap string string) (kid vid : Z) :
  dirs !! name = None -> segment_holds dirs name' kid vid ->
  segment_holds (<[name := files]> dirs) name' kid vid.
Proof.
  intros Hfree (files' & ks & vs & Hdir & Hrest).
  exists files', ks, vs. split; [| exact Hrest].
  rewrite lookup_insert_ne; [exact Hdir | congruence].
Qed.

Lemma archived_write (message : Message) (w : World) (ds : list DecodedAvroMessage) :
  archived w ds ->
  snd (write_message_to_file message w) = Ok tt ->
  exists d, decoded_as message d /\ archived (fst (write_message_to_file message w)) (ds ++ [d]).
Proof.
  intros [Hrecords Hcurrent].
  destruct (write_message_to_file_decoded message w) as (w0 & Hsame & ->).
  destruct Hsame as (Hself & Hdir & Hfile & Hsegs).
  destruct (decode_result (msg_key message)) as [[kid dk] | e] eqn:Hkey; [| discriminate].
  destruct (decode_result (msg_value message)) as [[vid dv] | e] eqn:Hvalue; [| discriminate].
  set (d := {| key := dk; value := dv; key_schema_id := kid; value_schema_id := vid |}).
  intros Hok. exists d. split; [split; assumption |].
  destruct (schema_changed (self w0) d || negb (is_not_None (schema_dir_name (self w0))))
    eqn:Hopen.
  - destruct (archive_decoded_open d w0 Hopen) as [Hself' Hrest]. simpl in Hself', Hrest.
    rewrite Hok in Hrest.
    destruct (working_dir w0 !! _) eqn:Hfree; [destruct Hrest as [? _]; discriminate |].
    destruct Hrest as [_ Hrest].
    destruct (get_schema_from_id E kid) as [ks |] eqn:Hks;
      [| destruct Hrest as [? _]; discriminate].
    destruct (get_schema_from_id E vid) as [vs |] eqn:Hvs;
      [| destruct Hrest as [? _]; discriminate].
    destruct Hrest as (_ & Hdir' & Hfile'). rewrite Hdir in Hfree, Hdir'. rewrite Hfile in Hfile'.
    assert (segment_holds (working_dir (fst (archive_decoded d w0)))
              (segment_dir_name (schema_version (self w0)) kid vid) kid vid) as Hnew.
    { rewrite Hdir'. eexists _, ks, vs. rewrite lookup_insert_eq. split; [reflexivity |].
      split; [exact Hks |]. split; [exact Hvs |].
      rewrite lookup_insert_ne by discriminate.
      rewrite lookup_singleton_eq, lookup_insert_eq. split; reflexivity. }
    split.
    + rewrite Hfile'. apply Forall2_app.
      * rewrite Hdir'. eapply Forall2_impl; [exact Hrecords |].
        intros d0 r0 (Hk0 & Hv0 & vid0 & Hholds & Hvid0).
        split; [exact Hk0 |]. split; [exact Hv0 |]. exists vid0.
        split; [apply segment_holds_insert; assumption | exact Hvid0].
      * constructor; [| constructor]. split; [reflexivity |]. split; [reflexivity |].
        exists vid. split; [exact Hnew | reflexivity].
    + intros name. rewrite Hself'. simpl. intros [= <-]. exists kid, vid.
      split; [reflexivity |]. split; [reflexivity | exact Hnew].
  - apply orb_false_iff in Hopen as [Hch Hno].
    destruct (schema_dir_name (self w0)) as [name |] eqn:Hname; [| discriminate].
    rewrite (archive_decoded_keep d w0 name Hch Hname). simpl.
    rewrite Hself in Hname, Hch. rewrite Hself, Hdir, Hfile.
    destruct (Hcurrent name Hname) as (kid0 & vid0 & Hk0 & Hv0 & Hholds).
    apply schema_changed_false in Hch as [Hk Hv]. simpl in Hk, Hv.
    assert (kid0 = kid) as -> by congruence.
    split; [| exact Hcurrent].
    apply Forall2_app; [exact Hrecords |]. constructor; [| constructor].
    split; [reflexivity |]. split; [reflexivity |]. exists vid0.
    split; [exact Hholds |]. simpl. intros Hdv. specialize (Hv Hdv). congruence.
Qed.

Lemma archived_write_messages (messages : list Message) (w : World)
    (ds : list DecodedAvroMessage) :
  archived w ds ->
  Forall (fun r => r = Ok tt) (snd (write_messages messages w)) ->
  exists ds', Forall2 decoded_as messages ds'
              /\ archived (fst (write_messages messages w)) (ds ++ ds').
Proof.
  revert w ds. induction messages as [| message rest IH]; intros w ds Harch Hall.
  - exists []. split; [constructor |]. rewrite app_nil_r. exact Harch.
  - simpl in Hall |- *. pose proof (archived_write message w ds Harch) as Hstep.
    destruct (write_message_to_file message w) as [w1 r]. simpl in Hstep.
    specialize (IH w1). destruct (write_messages rest w1) as [w2 rs].
    simpl in Hall, IH |- *. apply Forall_cons in Hall as [-> Hall].
    destruct (Hstep eq_refl) as (d & Hd & Harch1).
    destruct (IH _ Harch1 Hall) as (ds' & Hds' & Harch2).
    exists (d :: ds'). split; [constructor; assumption |].
    rewrite <- app_assoc in Harch2. exact Harch2.
Qed.

Lemma read_from_file_record (dirs : gmap string (gmap string string))
    (r : ArchiveRecord) (rest : list ArchiveRecord) (files : gmap string string)
    (key_text value_text : string) (ks vs : AvroSchema E) :
  dirs !! schema_directory_name r = Some files ->
  files !! "key_schema.avsc" = Some key_text ->
  files !! "value_schema.avsc" = Some value_text ->
  load_schema E key_text = Ok ks ->
  load_schema E value_text = Ok vs ->
  read_from_file dirs (r :: rest)
  = (rest, Ok (Some {| message_key := record_key r; message_value := record_value r;
                       key_schema := ks; value_schema := vs |})).
Proof.
  intros Hdir Hkey Hvalue Hks Hvs.
  unfold read_from_file, bind, pickle_load, lift, ret, read_text. simpl.
  rewrite Hdir, Hkey, Hks, Hvalue, Hvs. reflexivity.
Qed.

Lemma read_from_file_missing (dirs : gmap string (gmap string string))
    (r : ArchiveRecord) (rest : list ArchiveRecord) :
  dirs !! schema_directory_name r = None ->
  read_from_file dirs (r :: rest) = (rest, Raise (SegmentMissing (schema_directory_name r))).
Proof.
  intros Hdir. unfold read_from_file, bind, pickle_load, lift, ret, read_text. simpl.
  rewrite Hdir. reflexivity.
Qed.

Lemma read_messages_archived (dirs : gmap string (gmap string string))
    (messages : list Message) (ds : list DecodedAvroMessage) (records : list ArchiveRecord) :
  (forall schema_id entry, get_schema_from_id E schema_id = Some entry ->
     is_ok (load_schema E (json_dumps E (original_schema entry))) = true) ->
  Forall2 decoded_as messages ds ->
  Forall2 (record_of dirs) ds records ->
  exists outs, read_messages (S (length records)) dirs records = Some (Ok outs)
               /\ Forall2 reconstructs messages outs.
Proof.
  intros Hload Hdec Hrec. revert messages Hdec.
  induction Hrec as [| d r ds records Hr Hrec IH]; intros messages Hdec.
  - apply Forall2_nil_inv_r in Hdec as ->. exists []. split; [reflexivity | constructor].
  - apply Forall2_cons_inv_r in Hdec as (message & rest & [Hkey Hvalue] & Hdec & ->).
    destruct (IH rest Hdec) as (outs & Hread & Houts).
    destruct Hr as (Hrk & Hrv & vid' & (files & ks & vs & Hdir & Hks & Hvs & Hkf & Hvf) & Hvid).
    pose proof (Hload _ _ Hks) as Hlk. pose proof (Hload _ _ Hvs) as Hlv.
    destruct (load_schema E (json_dumps E (original_schema ks))) as [pk |] eqn:Hpk;
      [| discriminate].
    destruct (load_schema E (json_dumps E (original_schema vs))) as [pv |] eqn:Hpv;
      [| discriminate].
    eexists (_ :: outs). split.
    + change (read_messages (S (length (r :: records))) dirs (r :: records))
        with (match read_from_file dirs (r :: records) with
              | (_, Raise e) => Some (Raise e)
              | (_, Ok None) => Some (Ok [])
              | (stream', Ok (Some m)) =>
                  match read_messages (S (length records)) dirs stream' with
                  | Some (Ok ms) => Some (Ok (m :: ms))
                  | other => other
                  end
              end).
      rewrite (read_from_file_record dirs r records files _ _ pk pv Hdir Hkf Hvf Hpk Hpv).
      rewrite Hread. reflexivity.
    + constructor; [| exact Houts].
      exists (key_schema_id d), (key d), (value_schema_id d), (value d). simpl.
      split; [exact Hkey |]. split; [exact Hvalue |].
      split; [exact Hrk |]. split; [exact Hrv |].
      split; [exists ks; split; assumption |].
      exists vid'. split; [exists vs; split; assumption | exact Hvid].
Qed.

(** C4 (amended). When every write call of a session has succeeded, reading
    the archive back gives one message per input message, in the same order,
    with the same decoded key and value; its key schema is the document the
    registry returned for the message's key schema id; its value schema is a
    document the registry returned, and the one of the message's value schema
    id whenever the decoded value is present. *)
Theorem archive_round_trip (messages : list Message) :
  (forall schema_id entry, get_schema_from_id E schema_id = Some entry ->
     is_ok (load_schema E (json_dumps E (original_schema entry))) = true) ->
  Forall (fun r => r = Ok tt) (snd (write_messages messages initial_world)) ->
  let w := fst (write_messages messages initial_world) in
  exists outs,
    read_messages (S (length (file w))) (working_dir w) (file w) = Some (Ok outs)
    /\ Forall2 reconstructs messages outs.
Proof.
  intros Hload Hall w.
  assert (archived initial_world []) as Hinit.
  { split; [constructor | intros name; discriminate]. }
  destruct (archived_write_messages messages initial_world [] Hinit Hall)
    as (ds & Hds & [Hrecords _]).
  exact (read_messages_archived _ messages ds _ Hload Hds Hrecords).
Qed.

(** A directory without one of its schema files raises like a missing one. *)
Lemma read_from_file_incomplete (dirs : gmap string (gmap string string))
    (r : ArchiveRecord) (rest : list ArchiveRecord) (files : gmap string string) :
  dirs !! schema_directory_name r = Some files ->
  files !! "key_schema.avsc" = None ->
  read_from_file dirs (r :: rest) = (rest, Raise (SegmentMissing (schema_directory_name r))).
Proof.
  intros Hdir Hkey. unfold read_from_file, bind, pickle_load, lift, ret, read_text. simpl.
  rewrite Hdir, Hkey. reflexivity.
Qed.

Lemma read_from_file_cons (dirs : gmap string (gmap string string))
    (r : ArchiveRecord) (rest : list ArchiveRecord) :
  exists res, read_from_file dirs (r :: rest) = (rest, res) /\ res <> Ok None.
Proof.
  unfold read_from_file, bind, pickle_load, lift, ret. simpl.
  destruct (read_text dirs _ "key_schema.avsc"); simpl; [| eexists; split; [reflexivity | discriminate]].
  destruct (load_schema E _); simpl; [| eexists; split; [reflexivity | discriminate]].
  destruct (read_text dirs _ "value_schema.avsc"); simpl; [| eexists; split; [reflexivity | discriminate]].
  destruct (load_schema E _); simpl; eexists; split; try reflexivity; discriminate.
Qed.

(** A record whose segment directory is missing ends the read loop with an
    error, wherever it is in the stream. *)
Lemma read_messages_missing (dirs : gmap string (gmap string string))
    (before after : list ArchiveRecord) (r : ArchiveRecord) (fuel : nat)
    (outs : list KafkaMessage) :
  dirs !! schema_directory_name r = None ->
  read_messages fuel dirs (before ++ r :: after) <> Some (Ok outs).
Proof.
  intros Hdir. revert fuel outs.
  induction before as [| r0 before IH]; intros [| fuel] outs; try discriminate.
  - simpl app. simpl read_messages. rewrite read_from_file_missing by assumption.
    discriminate.
  - simpl app. simpl read_messages.
    destruct (read_from_file_cons dirs r0 (before ++ r :: after)) as (res & -> & Hres).
    destruct res as [[m |] | e]; [| contradiction | discriminate].
    specialize (IH fuel).
    destruct (read_messages fuel dirs (before ++ r :: after)) as [[ms |] |];
      [intros [= <-]; exact (IH ms eq_refl) | discriminate | discriminate].
Qed.

(** What [read_from_file] does with a record does not depend on the records
    after it. *)
Lemma read_from_file_first (dirs : gmap string (gmap string string))
    (r : ArchiveRecord) (rest : list ArchiveRecord) :
  read_from_file dirs (r :: rest) = (rest, snd (read_from_file dirs [r])).
Proof.
  unfold read_from_file, bind, pickle_load, lift, ret. simpl.
  destruct (read_text dirs _ "key_schema.avsc"); simpl; [| reflexivity].
  destruct (load_schema E _); simpl; [| reflexivity].
  destruct (read_text dirs _ "value_schema.avsc"); simpl; [| reflexivity].
  destruct (load_schema E _); reflexivity.
Qed.

Lemma read_from_file_returns (dirs : gmap string (gmap string string))
    (r : ArchiveRecord) (rest : list ArchiveRecord) (m : KafkaMessage) :
  snd (read_from_file dirs (r :: rest)) = Ok (Some m)
  <-> exists files key_text value_text,
        dirs !! schema_directory_name r = Some files
        /\ files !! "key_schema.avsc" = Some key_text
        /\ files !! "value_schema.avsc" = Some value_text
        /\ load_schema E key_text = Ok (key_schema m)
        /\ load_schema E value_text = Ok (value_schema m)
        /\ message_key m = record_key r /\ message_value m = record_value r.
Proof.
  split.
  - unfold read_from_file, bind, pickle_load, lift, ret, read_text. simpl.
    destruct (dirs !! schema_directory_name r) as [files |]; [| discriminate].
    destruct (files !! "key_schema.avsc") as [key_text |] eqn:Hkt; [| discriminate]. simpl.
    destruct (load_schema E key_text) as [ks | e] eqn:Hks; [| discriminate]. simpl.
    destruct (files !! "value_schema.avsc") as [value_text |] eqn:Hvt; [| discriminate]. simpl.
    destruct (load_schema E value_text) as [vs | e] eqn:Hvs; [| discriminate]. simpl.
    intros [= <-]. exists files, key_text, value_text. simpl. repeat split; assumption.
  - intros (files & key_text & value_text & Hdir & Hkt & Hvt & Hks & Hvs & Hk & Hv).
    rewrite (read_from_file_record dirs r rest files key_text value_text _ _
               Hdir Hkt Hvt Hks Hvs).
    simpl. destruct m. simpl in *. subst. reflexivity.
Qed.

(** The read loop ends: fuel beyond the length of the stream is never used up. *)
Lemma read_messages_ends (dirs : gmap string (gmap string string))
    (stream : list ArchiveRecord) (fuel : nat) :
  (length stream < fuel)%nat -> read_messages fuel dirs stream <> None.
Proof.
  revert fuel. induction stream as [| r rest IH]; intros [| fuel] Hfuel; simpl in Hfuel;
    try lia.
  - discriminate.
  - simpl read_messages. rewrite read_from_file_first.
    destruct (snd (read_from_file dirs [r])) as [[m |] | e]; try discriminate.
    specialize (IH fuel ltac:(lia)).
    destruct (read_messages fuel dirs rest) as [[ms |] |]; [discriminate.. | contradiction].
Qed.

(** The first record that makes [read_from_file] raise ends the read loop
    with that error. *)
Lemma read_messages_first_error (dirs : gmap string (gmap string string))
    (before rest : list ArchiveRecord) (r : ArchiveRecord) (e : error) (fuel : nat) :
  Forall (fun r0 => exists m, snd (read_from_file dirs [r0]) = Ok (Some m)) before ->
  snd (read_from_file dirs (r :: rest)) = Raise e ->
  (length before < fuel)%nat ->
  read_messages fuel dirs (before ++ r :: rest) = Some (Raise e).
Proof.
  intros Hbefore Hr. revert fuel.
  induction Hbefore as [| r0 before [m Hm] _ IH]; intros [| fuel] Hfuel; simpl in Hfuel;
    try lia.
  - simpl app. simpl read_messages.
    destruct (read_from_file dirs (r :: rest)) as [stream' res]. simpl in Hr. rewrite Hr.
    reflexivity.
  - simpl app. simpl read_messages. rewrite read_from_file_first, Hm.
    rewrite (IH fuel ltac:(lia)). reflexivity.
Qed.

(** A stream of records that can all be read is read to its end. *)
Lemma read_messages_all (dirs : gmap string (gmap string string))
    (stream : list ArchiveRecord) (fuel : nat) :
  Forall (fun r0 => exists m, snd (read_from_file dirs [r0]) = Ok (Some m)) stream ->
  (length stream < fuel)%nat ->
  exists outs, read_messages fuel dirs stream = Some (Ok outs)
               /\ Forall2 (fun r0 m => snd (read_from_file dirs [r0]) = Ok (Some m))
                          stream outs.
Proof.
  intros Hall. revert fuel.
  induction Hall as [| r0 stream [m Hm] _ IH]; intros [| fuel] Hfuel; simpl in Hfuel;
    try lia.
  - exists []. split; [reflexivity | constructor].
  - destruct (IH fuel ltac:(lia)) as (outs & Hread & Houts).
    exists (m :: outs). simpl read_messages. rewrite read_from_file_first, Hm, Hread.
    split; [reflexivity | constructor; assumption].
Qed.

(** C9 (amended). [read_from_file] answers [None], without error, exactly
    when the record stream is exhausted.  On a record it consumes that record and:
    raises SegmentMissing when the record's segment directory is absent, and
    also when the directory is there without its key schema document, or
    with a key schema document that parses and without its value schema
    document; raises the parser's error when a document that is there does
    not parse; and returns the record's key and value with the two documents
    as parsed exactly when the directory holds both documents and both
    parse.  The read loop ends on every stream; it ends with the error of
    the first record that raises, instead of skipping the record, and with
    the list of all messages when no record raises. *)
Theorem read_from_file_cases (dirs : gmap string (gmap string string)) :
  (forall stream, snd (read_from_file dirs stream) = Ok None <-> stream = [])
  /\ (forall r rest,
        let name := schema_directory_name r in
        let outcome := snd (read_from_file dirs (r :: rest)) in
        fst (read_from_file dirs (r :: rest)) = rest
        /\ (dirs !! name = None -> outcome = Raise (SegmentMissing name))
        /\ (forall files,
              dirs !! name = Some files -> files !! "key_schema.avsc" = None ->
              outcome = Raise (SegmentMissing name))
        /\ (forall files key_text e,
              dirs !! name = Some files -> files !! "key_schema.avsc" = Some key_text ->
              load_schema E key_text = Raise e ->
              outcome = Raise e)
        /\ (forall files key_text ks,
              dirs !! name = Some files -> files !! "key_schema.avsc" = Some key_text ->
              load_schema E key_text = Ok ks ->
              files !! "value_schema.avsc" = None ->
              outcome = Raise (SegmentMissing name))
        /\ (forall files key_text ks value_text e,
              dirs !! name = Some files -> files !! "key_schema.avsc" = Some key_text ->
              load_schema E key_text = Ok ks ->
              files !! "value_schema.avsc" = Some value_text ->
              load_schema E value_text = Raise e ->
              outcome = Raise e)
        /\ (forall files key_text value_text ks vs,
              dirs !! name = Some files ->
              files !! "key_schema.avsc" = Some key_text ->
              files !! "value_schema.avsc" = Some value_text ->
              load_schema E key_text = Ok ks ->
              load_schema E value_text = Ok vs ->
              outcome = Ok (Some {| message_key := record_key r;
                                    message_value := record_value r;
                                    key_schema := ks; value_schema := vs |}))
        /\ (forall m,
              outcome = Ok (Some m)
              <-> exists files key_text value_text,
                    dirs !! name = Some files
                    /\ files !! "key_schema.avsc" = Some key_text
                    /\ files !! "value_schema.avsc" = Some value_text
                    /\ load_schema E key_text = Ok (key_schema m)
                    /\ load_schema E value_text = Ok (value_schema m)
                    /\ message_key m = record_key r /\ message_value m = record_value r))
  /\ (forall stream fuel,
        (length stream < fuel)%nat -> read_messages fuel dirs stream <> None)
  /\ (forall before r rest e fuel,
        Forall (fun r0 => exists m, snd (read_from_file dirs [r0]) = Ok (Some m)) before ->
        snd (read_from_file dirs (r :: rest)) = Raise e ->
        (length before < fuel)%nat ->
        read_messages fuel dirs (before ++ r :: rest) = Some (Raise e))
  /\ (forall before r rest fuel outs,
        dirs !! schema_directory_name r = None ->
        read_messages fuel dirs (before ++ r :: rest) <> Some (Ok outs))
  /\ (forall stream fuel,
        Forall (fun r0 => exists m, snd (read_from_file dirs [r0]) = Ok (Some m)) stream ->
        (length stream < fuel)%nat ->
        exists outs, read_messages fuel dirs stream = Some (Ok outs)
                     /\ Forall2 (fun r0 m => snd (read_from_file dirs [r0]) = Ok (Some m))
                                stream outs).
Proof.
  split; [| split; [| split; [| split; [| split]]]].
  - intros [| r rest]; [split; reflexivity |]. split; [| discriminate].
    destruct (read_from_file_cons dirs r rest) as (res & -> & Hres). simpl.
    intros Habs. contradiction.
  - intros r rest name outcome. subst name outcome.
    split; [rewrite read_from_file_first; reflexivity |].
    split; [intros Hdir; rewrite read_from_file_missing by assumption; reflexivity |].
    split; [intros files Hdir Hkt;
            rewrite (read_from_file_incomplete dirs r rest files) by assumption;
            reflexivity |].
    split; [| split; [| split; [| split]]].
    + intros files key_text e Hdir Hkt Hks.
      unfold read_from_file, bind, pickle_load, lift, ret, read_text. simpl.
      rewrite Hdir, Hkt. simpl. rewrite Hks. reflexivity.
    + intros files key_text ks Hdir Hkt Hks Hvt.
      unfold read_from_file, bind, pickle_load, lift, ret, read_text. simpl.
      rewrite Hdir, Hkt. simpl. rewrite Hks. simpl. rewrite Hvt. reflexivity.
    + intros files key_text ks value_text e Hdir Hkt Hks Hvt Hvs.
      unfold read_from_file, bind, pickle_load, lift, ret, read_text. simpl.
      rewrite Hdir, Hkt. simpl. rewrite Hks. simpl. rewrite Hvt. simpl. rewrite Hvs.
      reflexivity.
    + intros files key_text value_text ks vs Hdir Hkt Hvt Hks Hvs.
      rewrite (read_from_file_record dirs r rest files key_text value_text ks vs)
        by assumption.
      reflexivity.
    + intros m. apply read_from_file_returns.
  - intros stream fuel. apply read_messages_ends.
  - intros before r rest e fuel. apply read_messages_first_error.
  - intros before r rest fuel outs Hdir. apply read_messages_missing. exact Hdir.
  - intros stream fuel. apply read_messages_all.
Qed.


(** * Further properties *)

(** ** The header *)

Lemma byte_val_inj (b c : byte) : byte_val b = byte_val c -> b = c.
Proof.
  unfold byte_val. intros Heq. apply N2Z.inj in Heq.
  pose proof (Byte.of_to_N b) as Hb. pose proof (Byte.of_to_N c) as Hc.
  rewrite Heq in Hb. congruence.
Qed.

(** The schema id determines bytes 1 to 4 of the header: two payloads carry
    the same id exactly when these four bytes are the same. *)
Theorem extract_schema_id_inj (b0 b1 b2 b3 b4 c0 c1 c2 c3 c4 : byte)
    (body body' : list byte) :
  extract_schema_id (b0 :: b1 :: b2 :: b3 :: b4 :: body)
  = extract_schema_id (c0 :: c1 :: c2 :: c3 :: c4 :: body')
  <-> b1 = c1 /\ b2 = c2 /\ b3 = c3 /\ b4 = c4.
Proof.
  rewrite !extract_schema_id_long, !be_uint_4. split.
  - intros [= Heq].
    pose proof (byte_val_range b1). pose proof (byte_val_range b2).
    pose proof (byte_val_range b3). pose proof (byte_val_range b4).
    pose proof (byte_val_range c1). pose proof (byte_val_range c2).
    pose proof (byte_val_range c3). pose proof (byte_val_range c4).
    repeat split; apply byte_val_inj; lia.
  - intros (-> & -> & -> & ->). reflexivity.
Qed.

(** ** What [decode_bytes] touches *)

(** [decode_bytes] changes nothing of the writer, the directories, the record
    stream or the segments; it asks the resolver once, for the id in the
    header, when the payload has a header, and not at all otherwise; and what
    it returns does not depend on the state. *)
Theorem decode_bytes_effects (raw_data : option (list byte)) (w w0 : World) :
  let w' := fst (decode_bytes raw_data w) in
  self w' = self w /\ working_dir w' = working_dir w
  /\ file w' = file w /\ segments w' = segments w
  /\ resolver_calls w'
     = resolver_calls w
       ++ match raw_data with
          | Some raw => match extract_schema_id raw with
                        | Ok schema_id => [schema_id]
                        | Raise _ => []
                        end
          | None => []
          end
  /\ snd (decode_bytes raw_data w) = snd (decode_bytes raw_data w0).
Proof.
  intros w'. subst w'.
  destruct (decode_bytes_frame raw_data w) as (Hself & Hdir & Hfile & Hsegs).
  repeat (split; [assumption |]). split.
  - destruct raw_data as [raw |]; [| simpl; rewrite app_nil_r; reflexivity].
    destruct (le_lt_dec 5 (length raw)) as [Hlen | Hlen].
    + destruct raw as [| b0 [| b1 [| b2 [| b3 [| b4 body]]]]]; simpl in Hlen; try lia.
      rewrite decode_bytes_long, extract_schema_id_long. reflexivity.
    + rewrite decode_bytes_short, extract_schema_id_short by assumption.
      simpl. rewrite app_nil_r. reflexivity.
  - rewrite !decode_bytes_result. reflexivity.
Qed.

(** ** What a write call does to the record stream and the directories *)

Lemma write_message_to_file_stream (message : Message) (w : World) :
  let w' := fst (write_message_to_file message w) in
  match snd (write_message_to_file message w) with
  | Ok _ =>
      exists kid dk vid dv name,
        decode_result (msg_key message) = Ok (kid, dk)
        /\ decode_result (msg_value message) = Ok (vid, dv)
        /\ schema_dir_name (self w') = Some name
        /\ current_key_schema_id (self w') = Some kid
        /\ (dv <> None -> current_value_schema_id (self w') = Some vid)
        /\ file w' = file w ++ [{| record_key := dk; record_value := dv;
                                   schema_directory_name := name |}]
  | Raise _ => file w' = file w
  end.
Proof.
  intros w'. subst w'.
  destruct (write_message_to_file_decoded message w) as (w0 & Hsame & ->).
  destruct Hsame as (Hself & Hdir & Hfile & Hsegs).
  destruct (decode_result (msg_key message)) as [[kid dk] | e] eqn:Hkey; [| exact Hfile].
  destruct (decode_result (msg_value message)) as [[vid dv] | e] eqn:Hvalue; [| exact Hfile].
  set (d := {| key := dk; value := dv; key_schema_id := kid; value_schema_id := vid |}).
  destruct (schema_changed (self w0) d || negb (is_not_None (schema_dir_name (self w0))))
    eqn:Hopen.
  - destruct (archive_decoded_open d w0 Hopen) as [Hself' Hrest].
    simpl in Hself', Hrest.
    destruct (working_dir w0 !! _).
    { destruct Hrest as (-> & _ & _ & ->). exact Hfile. }
    destruct Hrest as [_ Hrest].
    destruct (get_schema_from_id E kid);
      [destruct (get_schema_from_id E vid) |]; destruct Hrest as (-> & _ & Hfile');
      try (rewrite Hfile'; exact Hfile).
    exists kid, dk, vid, dv, (segment_dir_name (schema_version (self w0)) kid vid).
    split; [reflexivity |]. split; [reflexivity |]. rewrite Hself'. simpl.
    split; [reflexivity |]. split; [reflexivity |]. split; [reflexivity |].
    rewrite Hfile', Hfile. reflexivity.
  - apply orb_false_iff in Hopen as [Hch Hno].
    destruct (schema_dir_name (self w0)) as [name |] eqn:Hname; [| discriminate].
    rewrite (archive_decoded_keep d w0 name Hch Hname). simpl.
    apply schema_changed_false in Hch as [Hk Hv]. simpl in Hk, Hv.
    exists kid, dk, vid, dv, name. rewrite Hfile. repeat split; assumption.
Qed.

(** A write call appends exactly one record, holding the decoded key and
    value and the writer's directory name, when it returns, and none when it
    raises; the records already in the stream stay as they are.  After a call
    that returned, the writer's current key schema id is the message's, and
    so is its current value schema id when the decoded value is present. *)
Theorem write_appends_one_record (message : Message) (w : World) :
  let w' := fst (write_message_to_file message w) in
  match snd (write_message_to_file message w) with
  | Ok _ =>
      exists kid dk vid dv name,
        decode_result (msg_key message) = Ok (kid, dk)
        /\ decode_result (msg_value message) = Ok (vid, dv)
        /\ schema_dir_name (self w') = Some name
        /\ current_key_schema_id (self w') = Some kid
        /\ (dv <> None -> current_value_schema_id (self w') = Some vid)
        /\ file w' = file w ++ [{| record_key := dk; record_value := dv;
                                   schema_directory_name := name |}]
  | Raise _ => file w' = file w
  end.
Proof. exact (write_message_to_file_stream message w). Qed.

(** The same over a sequence of calls: the stream grows by one record for
    each call that returned, in the order of the calls, and the record of a
    message holds its decoded key and value. *)
Theorem write_messages_records (messages : list Message) (w : World) :
  let w' := fst (write_messages messages w) in
  let results := snd (write_messages messages w) in
  length results = length messages
  /\ exists records,
       file w' = file w ++ records
       /\ Forall2 (fun (m : Message * result unit) r =>
                     exists kid vid,
                       decode_result (msg_key (fst m)) = Ok (kid, record_key r)
                       /\ decode_result (msg_value (fst m)) = Ok (vid, record_value r))
                  (filter (fun m => is_ok (snd m) = true) (zip messages results))
                  records.
Proof.
  revert w. induction messages as [| message rest IH]; intros w; simpl.
  - split; [reflexivity |]. exists []. rewrite app_nil_r. split; [reflexivity | constructor].
  - pose proof (write_message_to_file_stream message w) as Hstep. simpl in Hstep.
    destruct (write_message_to_file message w) as [w1 r]. simpl in Hstep.
    specialize (IH w1). destruct (write_messages rest w1) as [w2 rs].
    simpl in IH |- *. destruct IH as (Hlen & records & Hfile & Hrecords).
    split; [congruence |].
    destruct r as [[] | e].
    + destruct Hstep as (kid & dk & vid & dv & name & Hkey & Hvalue & _ & _ & _ & Hfile1).
      eexists (_ :: records). rewrite Hfile, Hfile1, <- app_assoc. split; [reflexivity |].
      rewrite filter_cons_True by reflexivity.
      constructor; [| exact Hrecords]. exists kid, vid. split; assumption.
    + exists records. rewrite Hfile, Hstep. split; [reflexivity |].
      rewrite filter_cons_False by discriminate. exact Hrecords.
Qed.

Lemma write_keeps_directories (message : Message) (w : World) (name : string)
    (files : gmap string string) :
  working_dir w !! name = Some files ->
  working_dir (fst (write_message_to_file message w)) !! name = Some files.
Proof.
  intros Hdir0.
  destruct (write_message_to_file_decoded message w) as (w0 & Hsame & ->).
  destruct Hsame as (Hself & Hdir & Hfile & Hsegs). rewrite <- Hdir in Hdir0.
  destruct (decode_result (msg_key message)) as [[kid dk] | e]; [| exact Hdir0].
  destruct (decode_result (msg_value message)) as [[vid dv] | e]; [| exact Hdir0].
  set (d := {| key := dk; value := dv; key_schema_id := kid; value_schema_id := vid |}).
  destruct (schema_changed (self w0) d || negb (is_not_None (schema_dir_name (self w0))))
    eqn:Hopen.
  - destruct (archive_decoded_open d w0 Hopen) as [_ Hrest]. simpl in Hrest.
    destruct (working_dir w0 !! segment_dir_name _ _ _) eqn:Hfree.
    { destruct Hrest as (_ & -> & _). exact Hdir0. }
    assert (segment_dir_name (schema_version (self w0)) kid vid <> name) as Hne
      by congruence.
    destruct Hrest as [_ Hrest].
    destruct (get_schema_from_id E kid);
      [destruct (get_schema_from_id E vid) |]; destruct Hrest as (_ & -> & _);
      rewrite lookup_insert_ne by exact Hne; exact Hdir0.
  - apply orb_false_iff in Hopen as [Hch Hno].
    destruct (schema_dir_name (self w0)) as [name0 |] eqn:Hname; [| discriminate].
    rewrite (archive_decoded_keep d w0 name0 Hch Hname). exact Hdir0.
Qed.

Lemma write_messages_keep_directories (messages : list Message) (w : World) (name : string)
    (files : gmap string string) :
  working_dir w !! name = Some files ->
  working_dir (fst (write_messages messages w)) !! name = Some files.
Proof.
  revert w. induction messages as [| message rest IH]; intros w Hdir; [exact Hdir |].
  simpl. pose proof (write_keeps_directories message w name files Hdir) as Hstep.
  destruct (write_message_to_file message w) as [w1 r]. simpl in Hstep.
  specialize (IH w1 Hstep). destruct (write_messages rest w1) as [w2 rs]. exact IH.
Qed.

(** Write calls never remove or change a directory that exists: whatever the
    messages and the outcomes, each directory still holds the same files. *)
Theorem directories_never_modified (messages : list Message) (w : World) (name : string)
    (files : gmap string string) :
  working_dir w !! name = Some files ->
  working_dir (fst (write_messages messages w)) !! name = Some files.
Proof. apply write_messages_keep_directories. Qed.

(** ** The directories of a session *)

Lemma segment_files_empty (s : Segment) : segment_files s ∅.
Proof.
  split; [| split]; intros *; rewrite lookup_empty; discriminate.
Qed.

Lemma segment_files_key (n : nat) (kid vid : Z)
    (ks : RegisteredSchema (SchemaDoc E) (ParsedSchema E)) :
  get_schema_from_id E kid = Some ks ->
  segment_files (opened_segment n kid vid)
    {["key_schema.avsc" := json_dumps E (original_schema ks)]}.
Proof.
  intros Hks. split; [| split].
  - intros file_name text Hfile. apply lookup_singleton_Some in Hfile as [<- _]. left. reflexivity.
  - intros text Hfile. apply lookup_singleton_Some in Hfile as [_ <-]. exists ks. split; [exact Hks | reflexivity].
  - intros text Hfile. apply lookup_singleton_Some in Hfile as [Hne _]. discriminate.
Qed.

Lemma segment_files_both (n : nat) (kid vid : Z)
    (ks vs : RegisteredSchema (SchemaDoc E) (ParsedSchema E)) :
  get_schema_from_id E kid = Some ks ->
  get_schema_from_id E vid = Some vs ->
  segment_files (opened_segment n kid vid)
    (<["value_schema.avsc" := json_dumps E (original_schema vs)]>
       {["key_schema.avsc" := json_dumps E (original_schema ks)]}).
Proof.
  intros Hks Hvs. split; [| split].
  - intros file_name text Hfile. apply lookup_insert_Some in Hfile as [[<- _] | [_ Hfile]].
    + right. reflexivity.
    + apply lookup_singleton_Some in Hfile as [<- _]. left. reflexivity.
  - intros text Hfile. rewrite lookup_insert_ne in Hfile by discriminate.
    apply lookup_singleton_Some in Hfile as [_ <-]. exists ks. split; [exact Hks | reflexivity].
  - intros text Hfile. rewrite lookup_insert_eq in Hfile. injection Hfile as <-.
    split.
    + rewrite lookup_insert_ne by discriminate. rewrite lookup_singleton_eq. eauto.
    + exists vs. split; [exact Hvs | reflexivity].
Qed.

Lemma segments_on_disk_write (message : Message) (w : World) :
  segments_on_disk w -> segments_on_disk (fst (write_message_to_file message w)).
Proof.
  intros Hdisk.
  assert (forall s, s ∈ segments w ->
            exists files, working_dir (fst (write_message_to_file message w)) !! segment_name s
                          = Some files /\ segment_files s files) as Hold.
  { intros s Hs. destruct (Hdisk s Hs) as (files & Hfiles & Hok).
    exists files. split; [apply write_keeps_directories; exact Hfiles | exact Hok]. }
  revert Hold.
  destruct (write_message_to_file_decoded message w) as (w0 & Hsame & ->).
  destruct Hsame as (Hself & Hdir & Hfile & Hsegs).
  destruct (decode_result (msg_key message)) as [[kid dk] | e];
    [| intros Hold s; simpl; rewrite Hsegs; apply Hold].
  destruct (decode_result (msg_value message)) as [[vid dv] | e];
    [| intros Hold s; simpl; rewrite Hsegs; apply Hold].
  set (d := {| key := dk; value := dv; key_schema_id := kid; value_schema_id := vid |}).
  destruct (schema_changed (self w0) d || negb (is_not_None (schema_dir_name (self w0))))
    eqn:Hopen.
  - destruct (archive_decoded_open d w0 Hopen) as [_ Hrest]. simpl in Hrest.
    destruct (working_dir w0 !! segment_dir_name _ _ _) eqn:Hfree.
    { destruct Hrest as (_ & _ & Hsegs' & _). intros Hold s. rewrite Hsegs', Hsegs. apply Hold. }
    destruct Hrest as [Hsegs' Hrest]. intros Hold s. rewrite Hsegs', Hsegs.
    intros Hs. apply elem_of_app in Hs as [Hs | Hs]; [apply Hold; exact Hs |].
    apply list_elem_of_singleton in Hs as ->. simpl.
    destruct (get_schema_from_id E kid) as [ks |] eqn:Hks;
      [destruct (get_schema_from_id E vid) as [vs |] eqn:Hvs |];
      destruct Hrest as (_ & -> & _); rewrite lookup_insert_eq; eexists; (split; [reflexivity |]).
    + apply segment_files_both; assumption.
    + apply segment_files_key; assumption.
    + apply segment_files_empty.
  - apply orb_false_iff in Hopen as [Hch Hno].
    destruct (schema_dir_name (self w0)) as [name0 |] eqn:Hname; [| discriminate].
    rewrite (archive_decoded_keep d w0 name0 Hch Hname). simpl.
    intros Hold s. rewrite Hsegs. apply Hold.
Qed.

Lemma segments_on_disk_write_messages (messages : list Message) (w : World) :
  segments_on_disk w -> segments_on_disk (fst (write_messages messages w)).
Proof.
  revert w. induction messages as [| message rest IH]; intros w Hdisk; [exact Hdisk |].
  simpl. pose proof (segments_on_disk_write message w Hdisk) as Hstep.
  destruct (write_message_to_file message w) as [w1 r]. simpl in Hstep.
  specialize (IH w1 Hstep). destruct (write_messages rest w1) as [w2 rs]. exact IH.
Qed.

(** In a writer session the directories under the archive directory are
    exactly those of the segments made, whatever the outcomes of the calls. *)
Theorem directories_are_segments (messages : list Message) (name : string) :
  let w := fst (write_messages messages initial_world) in
  is_Some (working_dir w !! name) <-> name ∈ (segment_name <$> segments w).
Proof.
  intros w. split.
  - intros Hsome.
    destruct (inv_directories w (writer_invariant_session messages) name Hsome)
      as (s & Hs & <-).
    apply list_elem_of_fmap. exists s. split; [reflexivity | exact Hs].
  - intros Hin. apply list_elem_of_fmap in Hin as (s & -> & Hs).
    assert (segments_on_disk w) as Hdisk.
    { apply segments_on_disk_write_messages. intros s0 Hs0. simpl in Hs0.
      apply elem_of_nil in Hs0. contradiction. }
    destruct (Hdisk s Hs) as (files & Hfiles & _). eauto.
Qed.

(** In a writer session every segment has its directory, which holds nothing
    but schema files; a schema file that is there holds the document the
    registry returned for the segment's id of that channel, and the value
    schema file is never there without the key schema file. *)
Theorem segment_directories_hold_registered_schemas (messages : list Message) (s : Segment) :
  let w := fst (write_messages messages initial_world) in
  s ∈ segments w ->
  exists files,
    working_dir w !! segment_name s = Some files
    /\ (forall file_name text, files !! file_name = Some text ->
          file_name = "key_schema.avsc" \/ file_name = "value_schema.avsc")
    /\ (forall text, files !! "key_schema.avsc" = Some text ->
          exists entry, get_schema_from_id E (segment_key_schema_id s) = Some entry
                        /\ text = json_dumps E (original_schema entry))
    /\ (forall text, files !! "value_schema.avsc" = Some text ->
          is_Some (files !! "key_schema.avsc")
          /\ exists entry, get_schema_from_id E (segment_value_schema_id s) = Some entry
                           /\ text = json_dumps E (original_schema entry)).
Proof.
  intros w Hs.
  assert (segments_on_disk w) as Hdisk.
  { apply segments_on_disk_write_messages. intros s0 Hs0. simpl in Hs0.
    apply elem_of_nil in Hs0. contradiction. }
  exact (Hdisk s Hs).
Qed.

(** ** Records and segments of a session *)

Lemma write_segments_grow (message : Message) (w : World) :
  exists new, segments (fst (write_message_to_file message w)) = segments w ++ new.
Proof.
  destruct (write_message_to_file_decoded message w) as (w0 & Hsame & ->).
  destruct Hsame as (Hself & Hdir & Hfile & Hsegs).
  destruct (decode_result (msg_key message)) as [[kid dk] | e];
    [| exists []; rewrite app_nil_r; exact Hsegs].
  destruct (decode_result (msg_value message)) as [[vid dv] | e];
    [| exists []; rewrite app_nil_r; exact Hsegs].
  set (d := {| key := dk; value := dv; key_schema_id := kid; value_schema_id := vid |}).
  destruct (schema_changed (self w0) d || negb (is_not_None (schema_dir_name (self w0))))
    eqn:Hopen.
  - destruct (archive_decoded_open d w0 Hopen) as [_ Hrest]. simpl in Hrest.
    destruct (working_dir w0 !! _).
    + destruct Hrest as (_ & _ & -> & _). exists []. rewrite app_nil_r. exact Hsegs.
    + destruct Hrest as [-> _]. rewrite Hsegs. eauto.
  - apply orb_false_iff in Hopen as [Hch Hno].
    destruct (schema_dir_name (self w0)) as [name |] eqn:Hname; [| discriminate].
    rewrite (archive_decoded_keep d w0 name Hch Hname). simpl.
    exists []. rewrite app_nil_r. exact Hsegs.
Qed.

Lemma session_segment_sequence (w : World) (s : Segment) :
  writer_invariant w -> s ∈ segments w ->
  leading_number 0 (segment_name s) = N.of_nat (sequence s)
  /\ (sequence s <= length (segments w))%nat.
Proof.
  intros Hinv Hin. apply list_elem_of_lookup in Hin as [i Hi].
  pose proof (lookup_lt_Some _ _ _ Hi) as Hlt.
  rewrite (inv_segments w Hinv i s Hi). simpl.
  rewrite leading_number_segment_dir_name. split; [reflexivity | lia].
Qed.

Lemma current_name_is_last (w : World) (name : string) :
  writer_invariant w -> schema_dir_name (self w) = Some name ->
  exists s, s ∈ segments w /\ segment_name s = name
            /\ sequence s = length (segments w)
            /\ current_key_schema_id (self w) = Some (segment_key_schema_id s)
            /\ current_value_schema_id (self w) = Some (segment_value_schema_id s).
Proof.
  intros Hinv Hname. pose proof (inv_current w Hinv) as Hcur.
  destruct (last (segments w)) as [s |] eqn:Hlast.
  - exists s. pose proof Hlast as Hin. apply last_Some_elem_of in Hin.
    rewrite last_lookup in Hlast.
    pose proof (lookup_lt_Some _ _ _ Hlast) as Hlt.
    pose proof (inv_segments w Hinv _ s Hlast) as Hs.
    pose proof (f_equal segment_name Hs) as Hn. simpl in Hn.
    pose proof (f_equal sequence Hs) as Hq. simpl in Hq.
    rewrite Hcur in Hname. simpl in Hname. injection Hname as <-.
    split; [exact Hin |]. rewrite Hcur. simpl.
    split; [rewrite Hn, Hq; reflexivity |].
    split; [lia |]. split; reflexivity.
  - rewrite Hcur in Hname. discriminate.
Qed.

Lemma records_follow_segments_write (message : Message) (w : World) :
  writer_invariant w -> records_follow_segments w ->
  records_follow_segments (fst (write_message_to_file message w)).
Proof.
  intros Hinv [Hnames Hsorted].
  pose proof (writer_invariant_write message w Hinv) as Hinv'.
  destruct (write_segments_grow message w) as [new Hnew].
  pose proof (write_message_to_file_stream message w) as Hstream. simpl in Hstream.
  assert (Forall (fun r => exists s, s ∈ segments (fst (write_message_to_file message w))
                             /\ segment_name s = schema_directory_name r
                             /\ record_sequence r = N.of_nat (sequence s)) (file w)) as Hold.
  { eapply Forall_impl; [exact Hnames |]. intros r (s & Hs & Heq).
    exists s. split; [rewrite Hnew; apply elem_of_app; left; exact Hs | exact Heq]. }
  destruct (snd (write_message_to_file message w)) as [[] | e].
  - destruct Hstream as (kid & dk & vid & dv & name & _ & _ & Hname & _ & _ & Hfile).
    destruct (current_name_is_last _ name Hinv' Hname) as (s & Hs & Hsname & Hseq & _).
    destruct (session_segment_sequence _ s Hinv' Hs) as [Hlead _].
    rewrite Hsname in Hlead.
    split.
    + rewrite Hfile. apply Forall_app. split; [exact Hold |].
      apply Forall_singleton. exists s. split; [exact Hs |]. split; [exact Hsname | exact Hlead].
    + rewrite Hfile, fmap_app. apply StronglySorted_app.
      split; [| split; [exact Hsorted | repeat constructor]].
      intros x1 x2 Hx1 Hx2. apply list_elem_of_singleton in Hx2 as ->.
      apply list_elem_of_fmap in Hx1 as (r & -> & Hr).
      rewrite Forall_forall in Hnames. destruct (Hnames r Hr) as (s0 & Hs0 & _ & ->).
      destruct (session_segment_sequence w s0 Hinv Hs0) as [_ Hle].
      unfold record_sequence. simpl. rewrite Hlead, Hseq, Hnew, length_app. lia.
  - unfold records_follow_segments. rewrite Hstream. split; [exact Hold | exact Hsorted].
Qed.

Lemma records_follow_segments_write_messages (messages : list Message) (w : World) :
  writer_invariant w -> records_follow_segments w ->
  records_follow_segments (fst (write_messages messages w)).
Proof.
  revert w. induction messages as [| message rest IH]; intros w Hinv Hrec; [exact Hrec |].
  simpl. pose proof (records_follow_segments_write message w Hinv Hrec) as Hstep.
  pose proof (writer_invariant_write message w Hinv) as Hinv1.
  destruct (write_message_to_file message w) as [w1 r]. simpl in Hstep, Hinv1.
  specialize (IH w1 Hinv1 Hstep). destruct (write_messages rest w1) as [w2 rs]. exact IH.
Qed.

Lemma records_follow_segments_session (messages : list Message) :
  records_follow_segments (fst (write_messages messages initial_world)).
Proof.
  apply records_follow_segments_write_messages; [apply writer_invariant_initial |].
  split; constructor.
Qed.

(** In a writer session every record names a segment made in the session, by
    a directory name that starts with the segment's sequence number, and these
    numbers never decrease along the stream: the records of a segment are
    consecutive, and the segments follow each other in the order they were
    made. *)
Theorem records_ordered_by_segment (messages : list Message) :
  let w := fst (write_messages messages initial_world) in
  Forall (fun r => exists s, s ∈ segments w
                             /\ segment_name s = schema_directory_name r
                             /\ record_sequence r = N.of_nat (sequence s)) (file w)
  /\ StronglySorted N.le (record_sequence <$> file w).
Proof. exact (records_follow_segments_session messages). Qed.

(** In a writer session the counter is always one ahead of the number of
    segments made.  Before the first segment the writer has its initial
    attributes and the stream is empty; afterwards its current schema ids and
    its directory name are those of the last segment made. *)
Theorem writer_attributes_follow_last_segment (messages : list Message) :
  let w := fst (write_messages messages initial_world) in
  schema_version (self w) = S (length (segments w))
  /\ match last (segments w) with
     | None => self w = new_writer /\ file w = []
     | Some s =>
         current_key_schema_id (self w) = Some (segment_key_schema_id s)
         /\ current_value_schema_id (self w) = Some (segment_value_schema_id s)
         /\ schema_dir_name (self w) = Some (segment_name s)
         /\ sequence s = length (segments w)
     end.
Proof.
  intros w. pose proof (writer_invariant_session messages) as Hinv. fold w in Hinv.
  split; [exact (inv_counter w Hinv) |].
  pose proof (inv_current w Hinv) as Hcur.
  destruct (last (segments w)) as [s |] eqn:Hlast.
  - destruct (current_name_is_last w _ Hinv ltac:(rewrite Hcur; reflexivity))
      as (s' & Hs' & Hname & Hseq & _).
    rewrite Hcur. simpl. split; [reflexivity |]. split; [reflexivity |].
    pose proof Hlast as Hlookup. rewrite last_lookup in Hlookup.
    pose proof (lookup_lt_Some _ _ _ Hlookup) as Hlt.
    pose proof (inv_segments w Hinv _ s Hlookup) as Hs.
    pose proof (f_equal segment_name Hs) as Hn. simpl in Hn.
    pose proof (f_equal sequence Hs) as Hq. simpl in Hq.
    split; [rewrite Hn, Hq; reflexivity | lia].
  - split; [exact Hcur |].
    destruct (records_follow_segments_session messages) as [Hnames _]. fold w in Hnames.
    destruct (file w) as [| r l]; [reflexivity |].
    apply Forall_cons in Hnames as [(s & Hs & _) _].
    apply last_None in Hlast. rewrite Hlast in Hs. apply elem_of_nil in Hs. contradiction.
Qed.

(** In a writer session, a call that returns files its record under the
    last segment made, whose name is built from its sequence number, from the
    key schema id of the message, and from a value schema id that is the one
    of the message whenever the decoded value is present. *)
Theorem record_directory_matches_message (messages : list Message) (message : Message) :
  let w := fst (write_messages messages initial_world) in
  let w' := fst (write_message_to_file message w) in
  snd (write_message_to_file message w) = Ok tt ->
  exists kid dk vid dv vid',
    decode_result (msg_key message) = Ok (kid, dk)
    /\ decode_result (msg_value message) = Ok (vid, dv)
    /\ (dv <> None -> vid' = vid)
    /\ last (segments w') = Some (opened_segment (length (segments w')) kid vid')
    /\ last (file w')
       = Some {| record_key := dk; record_value := dv;
                 schema_directory_name := segment_dir_name (length (segments w')) kid vid' |}.
Proof.
  intros w w' Hok.
  pose proof (writer_invariant_write message w (writer_invariant_session messages)) as Hinv'.
  fold w' in Hinv'.
  pose proof (write_message_to_file_stream message w) as Hstream. simpl in Hstream.
  rewrite Hok in Hstream. fold w' in Hstream.
  destruct Hstream as (kid & dk & vid & dv & name & Hkey & Hvalue & Hname & Hk & Hv & Hfile).
  pose proof (inv_current w' Hinv') as Hcur.
  destruct (last (segments w')) as [s |] eqn:Hlast;
    [| rewrite Hcur in Hname; discriminate].
  pose proof Hlast as Hlookup. rewrite last_lookup in Hlookup.
  pose proof (lookup_lt_Some _ _ _ Hlookup) as Hlt.
  pose proof (inv_segments w' Hinv' _ s Hlookup) as Hs.
  replace (S (pred (length (segments w')))) with (length (segments w')) in Hs by lia.
  pose proof (f_equal sequence Hs) as Hq. simpl in Hq.
  rewrite Hcur in Hname, Hk, Hv. simpl in Hname, Hk, Hv.
  injection Hk as Hk. injection Hname as Hname.
  exists kid, dk, vid, dv, (segment_value_schema_id s).
  split; [exact Hkey |]. split; [exact Hvalue |].
  split; [intros Hdv; specialize (Hv Hdv); congruence |].
  split; [rewrite Hs, Hk; reflexivity |].
  rewrite Hfile, last_snoc, <- Hname, Hq, Hk. reflexivity.
Qed.

(** ** Writing a message again *)

Lemma write_kept (message : Message) (w : World) (kid vid : Z) (dk dv : option (Datum E))
    (name : string) :
  decode_result (msg_key message) = Ok (kid, dk) ->
  decode_result (msg_value message) = Ok (vid, dv) ->
  schema_changed (self w) {| key := dk; value := dv; key_schema_id := kid;
                             value_schema_id := vid |} = false ->
  schema_dir_name (self w) = Some name ->
  let w' := fst (write_message_to_file message w) in
  snd (write_message_to_file message w) = Ok tt
  /\ self w' = self w /\ segments w' = segments w /\ working_dir w' = working_dir w
  /\ file w' = file w ++ [{| record_key := dk; record_value := dv;
                             schema_directory_name := name |}].
Proof.
  intros Hkey Hvalue Hch Hname w'. subst w'.
  destruct (write_message_to_file_decoded message w) as (w0 & Hsame & ->).
  rewrite Hkey, Hvalue. destruct Hsame as (Hself & Hdir & Hfile & Hsegs).
  rewrite <- Hself in Hch, Hname.
  rewrite (archive_decoded_keep _ w0 name Hch Hname). simpl.
  rewrite Hself, Hdir, Hfile, Hsegs. repeat split.
Qed.

Lemma write_settles (message : Message) (w : World) (kid vid : Z) (dk dv : option (Datum E)) :
  decode_result (msg_key message) = Ok (kid, dk) ->
  decode_result (msg_value message) = Ok (vid, dv) ->
  let w' := fst (write_message_to_file message w) in
  schema_changed (self w') {| key := dk; value := dv; key_schema_id := kid;
                              value_schema_id := vid |} = false
  /\ exists name, schema_dir_name (self w') = Some name.
Proof.
  intros Hkey Hvalue w'. subst w'.
  destruct (write_message_to_file_decoded message w) as (w0 & Hsame & ->).
  rewrite Hkey, Hvalue.
  set (d := {| key := dk; value := dv; key_schema_id := kid; value_schema_id := vid |}).
  destruct (schema_changed (self w0) d || negb (is_not_None (schema_dir_name (self w0))))
    eqn:Hopen.
  - destruct (archive_decoded_open d w0 Hopen) as [-> _]. simpl. split; [| eauto].
    unfold schema_changed. simpl.
    rewrite !bool_decide_eq_false_2 by (intros Hne; apply Hne; reflexivity). reflexivity.
  - apply orb_false_iff in Hopen as [Hch Hno].
    destruct (schema_dir_name (self w0)) as [name |] eqn:Hname; [| discriminate].
    rewrite (archive_decoded_keep d w0 name Hch Hname). simpl. eauto.
Qed.

(** Whatever the state and whatever the first call did (opened a segment,
    kept the current one, or raised while opening one), writing a message
    whose payloads decode a second time returns, opens no segment, changes no
    directory and no attribute of the writer, and appends one record under
    the writer's current directory name. *)
Theorem repeated_message_keeps_segment (message : Message) (w : World) (kid vid : Z)
    (dk dv : option (Datum E)) :
  decode_result (msg_key message) = Ok (kid, dk) ->
  decode_result (msg_value message) = Ok (vid, dv) ->
  let w1 := fst (write_message_to_file message w) in
  let w2 := fst (write_message_to_file message w1) in
  snd (write_message_to_file message w1) = Ok tt
  /\ self w2 = self w1 /\ segments w2 = segments w1 /\ working_dir w2 = working_dir w1
  /\ exists name, schema_dir_name (self w1) = Some name
       /\ file w2 = file w1 ++ [{| record_key := dk; record_value := dv;
                                   schema_directory_name := name |}].
Proof.
  intros Hkey Hvalue w1 w2.
  destruct (write_settles message w kid vid dk dv Hkey Hvalue) as (Hch & name & Hname).
  fold w1 in Hch, Hname.
  destruct (write_kept message w1 kid vid dk dv name Hkey Hvalue Hch Hname)
    as (Hok & Hself & Hsegs & Hdir & Hfile).
  fold w2 in Hself, Hsegs, Hdir, Hfile. repeat (split; [assumption |]). eauto.
Qed.

(** ** A directory name that is taken *)

Lemma open_condition (w0 : World) (kid vid : Z) (dk dv : option (Datum E)) :
  schema_dir_name (self w0) = None
  \/ current_key_schema_id (self w0) <> Some kid
  \/ (current_value_schema_id (self w0) <> Some vid /\ dv <> None) ->
  schema_changed (self w0) {| key := dk; value := dv; key_schema_id := kid;
                              value_schema_id := vid |}
  || negb (is_not_None (schema_dir_name (self w0))) = true.
Proof.
  intros [Hnone | Hchanged].
  - rewrite Hnone. apply orb_true_r.
  - apply orb_true_iff. left. apply schema_changed_true. simpl. tauto.
Qed.

(** When a message has to open a segment and the directory of that name is
    already there (a new writer on an archive directory that is not empty),
    the call raises FileExistsError, appends nothing and changes no directory
    and no segment; but the writer's attributes are already those of the new
    segment, so that writing the message again returns and files its record
    under the directory that was there. *)
Theorem taken_directory_name (message : Message) (w : World) (kid vid : Z)
    (dk dv : option (Datum E)) :
  decode_result (msg_key message) = Ok (kid, dk) ->
  decode_result (msg_value message) = Ok (vid, dv) ->
  schema_dir_name (self w) = None
  \/ current_key_schema_id (self w) <> Some kid
  \/ (current_value_schema_id (self w) <> Some vid /\ dv <> None) ->
  let name := segment_dir_name (schema_version (self w)) kid vid in
  is_Some (working_dir w !! name) ->
  let w1 := fst (write_message_to_file message w) in
  let w2 := fst (write_message_to_file message w1) in
  snd (write_message_to_file message w) = Raise (FileExistsError name)
  /\ working_dir w1 = working_dir w /\ file w1 = file w /\ segments w1 = segments w
  /\ self w1 = opened_writer (schema_version (self w)) kid vid
  /\ snd (write_message_to_file message w1) = Ok tt
  /\ working_dir w2 = working_dir w /\ segments w2 = segments w
  /\ file w2 = file w ++ [{| record_key := dk; record_value := dv;
                             schema_directory_name := name |}].
Proof.
  intros Hkey Hvalue Hcond name [files Hfiles] w1 w2.
  assert (snd (write_message_to_file message w) = Raise (FileExistsError name)
          /\ working_dir w1 = working_dir w /\ file w1 = file w /\ segments w1 = segments w
          /\ self w1 = opened_writer (schema_version (self w)) kid vid) as Hfirst.
  { subst w1. destruct (write_message_to_file_decoded message w) as (w0 & Hsame & ->).
    rewrite Hkey, Hvalue. destruct Hsame as (Hself & Hdir & Hfile & Hsegs).
    rewrite <- Hself in Hcond.
    destruct (archive_decoded_open _ w0 (open_condition w0 kid vid dk dv Hcond))
      as [Hself' Hrest].
    simpl in Hself', Hrest. rewrite Hself in Hself', Hrest. rewrite Hdir in Hrest.
    fold name in Hrest. rewrite Hfiles in Hrest.
    destruct Hrest as (Hr & Hd & Hs & Hf).
    split; [exact Hr |]. split; [congruence |]. split; [congruence |].
    split; [congruence | exact Hself']. }
  destruct Hfirst as (Hr & Hd & Hf & Hs & Hself). repeat (split; [assumption |]).
  destruct (write_settles message w kid vid dk dv Hkey Hvalue) as (Hch & _).
  fold w1 in Hch.
  destruct (write_kept message w1 kid vid dk dv name Hkey Hvalue Hch)
    as (Hok & _ & Hsegs2 & Hdir2 & Hfile2).
  { rewrite Hself. reflexivity. }
  fold w2 in Hsegs2, Hdir2, Hfile2.
  split; [exact Hok |]. split; [congruence |]. split; [congruence |].
  rewrite Hfile2, Hf. reflexivity.
Qed.

(** ** A schema lookup that fails while a segment is opened *)

(** When a message opens a segment and the registry has no schema for its
    key schema id or its value schema id, the call raises after the directory
    is made, the segment is counted and the writer's attributes are updated;
    the same message written again is then archived under that directory, and
    reading its record back raises. *)
Theorem failed_opening_leaves_unreadable_record (message : Message) (w : World)
    (kid vid : Z) (dk dv : option (Datum E)) (rest : list ArchiveRecord) :
  decode_result (msg_key message) = Ok (kid, dk) ->
  decode_result (msg_value message) = Ok (vid, dv) ->
  schema_dir_name (self w) = None
  \/ current_key_schema_id (self w) <> Some kid
  \/ (current_value_schema_id (self w) <> Some vid /\ dv <> None) ->
  let name := segment_dir_name (schema_version (self w)) kid vid in
  working_dir w !! name = None ->
  get_schema_from_id E kid = None \/ get_schema_from_id E vid = None ->
  let w1 := fst (write_message_to_file message w) in
  let w2 := fst (write_message_to_file message w1) in
  let r := {| record_key := dk; record_value := dv; schema_directory_name := name |} in
  is_ok (snd (write_message_to_file message w)) = false
  /\ file w1 = file w
  /\ segments w1 = segments w ++ [opened_segment (schema_version (self w)) kid vid]
  /\ snd (write_message_to_file message w1) = Ok tt
  /\ file w2 = file w ++ [r]
  /\ is_ok (snd (read_from_file (working_dir w2) (r :: rest))) = false.
Proof.
  intros Hkey Hvalue Hcond name Hfree Hmissing w1 w2 r.
  assert (is_ok (snd (write_message_to_file message w)) = false
          /\ file w1 = file w
          /\ segments w1 = segments w ++ [opened_segment (schema_version (self w)) kid vid]
          /\ self w1 = opened_writer (schema_version (self w)) kid vid
          /\ exists files, working_dir w1 !! name = Some files
               /\ (files !! "key_schema.avsc" = None \/ files !! "value_schema.avsc" = None))
    as Hfirst.
  { subst w1. destruct (write_message_to_file_decoded message w) as (w0 & Hsame & ->).
    rewrite Hkey, Hvalue. destruct Hsame as (Hself & Hdir & Hfile & Hsegs).
    rewrite <- Hself in Hcond.
    destruct (archive_decoded_open _ w0 (open_condition w0 kid vid dk dv Hcond))
      as [Hself' Hrest].
    simpl in Hself', Hrest. rewrite Hself in Hself', Hrest. rewrite Hdir in Hrest.
    fold name in Hrest. rewrite Hfree in Hrest. destruct Hrest as [Hsegs' Hrest].
    rewrite Hsegs, Hfile in *.
    destruct (get_schema_from_id E kid) as [ks |] eqn:Hks.
    - destruct Hmissing as [? | Hvs]; [discriminate |]. rewrite Hvs in Hrest.
      destruct Hrest as (-> & Hd & Hf).
      split; [reflexivity |]. split; [exact Hf |]. split; [exact Hsegs' |].
      split; [exact Hself' |]. rewrite Hd, lookup_insert_eq. eexists. split; [reflexivity |].
      right. apply lookup_singleton_ne. discriminate.
    - destruct Hrest as (-> & Hd & Hf).
      split; [reflexivity |]. split; [exact Hf |]. split; [exact Hsegs' |].
      split; [exact Hself' |]. rewrite Hd, lookup_insert_eq. eexists. split; [reflexivity |].
      left. apply lookup_empty. }
  destruct Hfirst as (Hr & Hf & Hs & Hself & files & Hfiles & Hgap).
  repeat (split; [assumption |]).
  destruct (write_settles message w kid vid dk dv Hkey Hvalue) as (Hch & _).
  fold w1 in Hch.
  destruct (write_kept message w1 kid vid dk dv name Hkey Hvalue Hch)
    as (Hok & _ & _ & Hdir2 & Hfile2).
  { rewrite Hself. reflexivity. }
  fold w2 in Hdir2, Hfile2.
  split; [exact Hok |]. split; [rewrite Hfile2, Hf; reflexivity |].
  rewrite Hdir2. unfold read_from_file, bind, pickle_load, lift, ret, read_text. simpl.
  rewrite Hfiles. destruct (files !! "key_schema.avsc") as [key_text |] eqn:Hk; [| reflexivity].
  destruct Hgap as [? | Hv]; [discriminate |]. simpl.
  destruct (load_schema E key_text); [| reflexivity]. simpl. rewrite Hv. reflexivity.
Qed.

(** ** The reader *)

(** On a stream that is not exhausted, [read_from_file] moves past exactly
    one record, whether it returns a message or raises, and never answers
    [None]: a caller that goes on after an error continues with the next
    record. *)
Theorem read_from_file_consumes_one (dirs : gmap string (gmap string string))
    (r : ArchiveRecord) (rest : list ArchiveRecord) :
  fst (read_from_file dirs (r :: rest)) = rest
  /\ snd (read_from_file dirs (r :: rest)) <> Ok None.
Proof.
  destruct (read_from_file_cons dirs r rest) as (res & -> & Hres). split; [reflexivity | exact Hres].
Qed.

Lemma read_from_file_local (dirs dirs' : gmap string (gmap string string))
    (r : ArchiveRecord) (rest : list ArchiveRecord) :
  dirs !! schema_directory_name r = dirs' !! schema_directory_name r ->
  read_from_file dirs (r :: rest) = read_from_file dirs' (r :: rest).
Proof.
  intros Hdir. unfold read_from_file, bind, pickle_load, lift, ret, read_text. simpl.
  rewrite Hdir. reflexivity.
Qed.

(** What [read_from_file] gives for a record whose directory exists is not
    changed by any later write calls, whatever they do. *)
Theorem later_writes_keep_records_readable (messages : list Message) (w : World)
    (r : ArchiveRecord) (rest : list ArchiveRecord) :
  is_Some (working_dir w !! schema_directory_name r) ->
  read_from_file (working_dir (fst (write_messages messages w))) (r :: rest)
  = read_from_file (working_dir w) (r :: rest).
Proof.
  intros [files Hfiles]. apply read_from_file_local.
  rewrite Hfiles. apply write_messages_keep_directories. exact Hfiles.
Qed.

(** ** Directory names can be read back *)

Lemma pretty_N_char_no_underscore (d : N) : pretty_N_char d <> "_"%char.
Proof. unfold pretty_N_char. repeat case_match; discriminate. Qed.

Lemma no_underscore_pretty_N_go (x : N) (s : string) :
  no_underscore s -> no_underscore (pretty_N_go x s).
Proof.
  revert s. induction (N.lt_wf_0 x) as [x _ IH]. intros s Hs.
  destruct (decide (x = 0)%N) as [-> | Hx]; [rewrite pretty_N_go_0; exact Hs |].
  rewrite pretty_N_go_step by lia. apply IH; [apply N.div_lt; lia |].
  split; [apply pretty_N_char_no_underscore | exact Hs].
Qed.

Lemma no_underscore_pretty_N (x : N) : no_underscore (pretty x).
Proof.
  unfold pretty, pretty_N. destruct (decide (x = 0)%N).
  - split; [discriminate | exact I].
  - apply no_underscore_pretty_N_go. exact I.
Qed.

Lemma no_underscore_pretty_Z (z : Z) : no_underscore (pretty z).
Proof.
  destruct z as [| p | p]; unfold pretty, pretty_Z.
  - split; [discriminate | exact I].
  - apply (no_underscore_pretty_N (N.pos p)).
  - split; [discriminate | apply (no_underscore_pretty_N (N.pos p))].
Qed.

Lemma split_at_underscore (s1 s2 t1 t2 : string) :
  no_underscore s1 -> no_underscore s2 ->
  s1 +:+ String "_"%char t1 = s2 +:+ String "_"%char t2 ->
  s1 = s2 /\ t1 = t2.
Proof.
  revert s2. induction s1 as [| c s1 IH]; intros [| c2 s2] Hs1 Hs2 Heq.
  - injection Heq as ->. split; reflexivity.
  - injection Heq as Hc _. destruct Hs2 as [Hs2 _]. congruence.
  - injection Heq as Hc _. destruct Hs1 as [Hs1 _]. congruence.
  - injection Heq as -> Heq. destruct Hs1 as [_ Hs1]. destruct Hs2 as [_ Hs2].
    destruct (IH s2 Hs1 Hs2 Heq) as [-> ->]. split; reflexivity.
Qed.

(** A directory name determines the sequence number and both schema ids it
    was built from: no two triples share a name. *)
Theorem segment_dir_name_inj (n n' : nat) (k k' v v' : Z) :
  segment_dir_name n k v = segment_dir_name n' k' v' <-> n = n' /\ k = k' /\ v = v'.
Proof.
  split; [| intros (-> & -> & ->); reflexivity].
  intros Heq. pose proof (segment_dir_name_sequence _ _ _ _ _ _ Heq) as <-.
  split; [reflexivity |]. unfold segment_dir_name in Heq.
  apply (inj (String.app (format_04 n))) in Heq.
  injection Heq as Heq.
  apply split_at_underscore in Heq as [Hk Hv]; try apply no_underscore_pretty_Z.
  split; [exact (inj pretty k k' Hk) | exact (inj pretty v v' Hv)].
Qed.

(** ** Segment names and schema pairs that come back *)

Lemma string_length_app (s t : string) :
  String.length (s +:+ t) = (String.length s + String.length t)%nat.
Proof.
  induction s as [| c s IH]; [reflexivity |].
  change (S (String.length (s +:+ t)) = S (String.length s + String.length t)).
  rewrite IH. reflexivity.
Qed.

Lemma pretty_nat_wide (n : nat) : (1000 <= n)%nat -> (4 <= String.length (pretty n))%nat.
Proof.
  intros Hn. unfold pretty, pretty_nat, pretty, pretty_N.
  set (x := N.of_nat n). assert (1000 <= x)%N as Hx by lia.
  destruct (decide (x = 0)%N) as [H0 | _]; [lia |].
  assert (100 <= x `div` 10)%N as H1 by (apply N.div_le_lower_bound; lia).
  assert (10 <= (x `div` 10) `div` 10)%N as H2 by (apply N.div_le_lower_bound; lia).
  assert (1 <= ((x `div` 10) `div` 10) `div` 10)%N as H3 by (apply N.div_le_lower_bound; lia).
  rewrite (pretty_N_go_step x) by lia.
  rewrite (pretty_N_go_step (x `div` 10)) by lia.
  rewrite (pretty_N_go_step ((x `div` 10) `div` 10)) by lia.
  rewrite (pretty_N_go_step (((x `div` 10) `div` 10) `div` 10)) by lia.
  match goal with
  | |- (_ <= String.length (pretty_N_go ?y ?digits))%nat =>
      change digits with ("" +:+ digits); rewrite <- (pretty_N_go_app y "" digits)
  end.
  rewrite string_length_app. simpl. lia.
Qed.

(** Format spec [04]: three, two, one or no zeros before the decimal digits. *)
Lemma format_04_padding (n : nat) :
  format_04 n
  = (if decide (n < 10)%nat then "000"
     else if decide (n < 100)%nat then "00"
     else if decide (n < 1000)%nat then "0" else "") +:+ pretty n.
Proof.
  destruct (decide (n < 1000)%nat) as [Hn | Hn].
  - assert (forallb (fun n => bool_decide
              (format_04 n
               = (if decide (n < 10)%nat then "000"
                  else if decide (n < 100)%nat then "00" else "0") +:+ pretty n))
              (seq 0 1000) = true) as Hall by (vm_compute; reflexivity).
    rewrite List.forallb_forall in Hall. specialize (Hall n).
    rewrite List.in_seq in Hall. specialize (Hall ltac:(lia)).
    apply bool_decide_eq_true in Hall. rewrite Hall.
    repeat destruct (decide _); try lia; reflexivity.
  - unfold format_04. pose proof (pretty_nat_wide n ltac:(lia)) as Hwide.
    replace (4 - String.length (pretty n))%nat with 0%nat by lia.
    repeat destruct (decide _); try lia; reflexivity.
Qed.

(** C6 (amended).  A segment name is the sequence number in decimal, padded
    with zeros to four digits, then the key schema id and the value schema id in
    decimal, joined by underscores, as in [0001_1_-1] and [0012_3_4].  In a
    writer session the segment made in position [i] (counting from 0) has
    sequence number [i + 1], the name built from it and from its schema ids,
    and that number as the number its name starts with; no two segments
    share a name.  A message whose schema pair is not that of the last
    segment, the pair used before or not, opens a segment under a name no
    earlier segment has, in a new directory, and leaves the directories of
    the earlier segments as they are, when its key schema id is not the last
    segment's, or its value schema id is not and its decoded value is
    present.  Otherwise (the key schema id is the last segment's and the
    decoded value is absent, or the pair is the last segment's) no segment is
    opened and the record is filed under the last segment's name. *)
Theorem segment_names_unique (messages : list Message) :
  let w := fst (write_messages messages initial_world) in
  (segment_dir_name 1 1 (-1) = "0001_1_-1"
   /\ segment_dir_name 12 3 4 = "0012_3_4"
   /\ segment_dir_name 123 (-1) 4294967295 = "0123_-1_4294967295"
   /\ segment_dir_name 1234 0 7 = "1234_0_7"
   /\ forall n k v,
        segment_dir_name n k v
        = (if decide (n < 10)%nat then "000"
           else if decide (n < 100)%nat then "00"
           else if decide (n < 1000)%nat then "0" else "")
          +:+ pretty n +:+ "_" +:+ pretty k +:+ "_" +:+ pretty v)
  /\ (forall i s, segments w !! i = Some s ->
        sequence s = S i
        /\ segment_name s
           = segment_dir_name (S i) (segment_key_schema_id s) (segment_value_schema_id s)
        /\ leading_number 0 (segment_name s) = N.of_nat (S i))
  /\ NoDup (segment_name <$> segments w)
  /\ (forall message kid vid dk dv s,
        decode_result (msg_key message) = Ok (kid, dk) ->
        decode_result (msg_value message) = Ok (vid, dv) ->
        last (segments w) = Some s ->
        let w' := fst (write_message_to_file message w) in
        let name := segment_dir_name (S (length (segments w))) kid vid in
        (segment_key_schema_id s <> kid
         \/ (segment_value_schema_id s <> vid /\ dv <> None) ->
         segments w' = segments w ++ [opened_segment (S (length (segments w))) kid vid]
         /\ (name ∉ (segment_name <$> segments w))
         /\ working_dir w !! name = None
         /\ is_Some (working_dir w' !! name)
         /\ (forall old, old ∈ segments w ->
               is_Some (working_dir w !! segment_name old)
               /\ working_dir w' !! segment_name old = working_dir w !! segment_name old)
         /\ (forall r, r ∈ file w' -> r ∈ file w \/ schema_directory_name r = name))
        /\ (segment_key_schema_id s = kid
            /\ (segment_value_schema_id s = vid \/ dv = None) ->
            snd (write_message_to_file message w) = Ok tt
            /\ segments w' = segments w /\ working_dir w' = working_dir w
            /\ self w' = self w
            /\ file w' = file w ++ [{| record_key := dk; record_value := dv;
                                       schema_directory_name := segment_name s |}])).
Proof.
  intros w. pose proof (writer_invariant_session messages) as Hinv. fold w in Hinv.
  split; [| split; [| split]].
  - repeat (split; [reflexivity |]). intros n k v.
    unfold segment_dir_name. rewrite format_04_padding, string_app_assoc. reflexivity.
  - intros i s Hs. rewrite (inv_segments w Hinv i s Hs). simpl.
    split; [reflexivity |]. split; [reflexivity |]. apply leading_number_segment_dir_name.
  - apply NoDup_alt. intros i j name Hi Hj.
    rewrite list_lookup_fmap in Hi, Hj.
    destruct (segments w !! i) as [si |] eqn:Hsi; [| discriminate].
    destruct (segments w !! j) as [sj |] eqn:Hsj; [| discriminate].
    simpl in Hi, Hj. injection Hi as Hi. injection Hj as Hj.
    rewrite (inv_segments w Hinv i si Hsi) in Hi.
    rewrite (inv_segments w Hinv j sj Hsj) in Hj. simpl in Hi, Hj.
    rewrite <- Hj in Hi. apply segment_dir_name_sequence in Hi. lia.
  - intros message kid vid dk dv s Hkey Hvalue Hlast w' name.
    pose proof (last_segment_attributes w Hinv) as Hcur. rewrite Hlast in Hcur.
    destruct Hcur as [Hself Hs].
    assert (current_key_schema_id (self w) = Some (segment_key_schema_id s)) as Hck
      by (rewrite Hself; reflexivity).
    assert (current_value_schema_id (self w) = Some (segment_value_schema_id s)) as Hcv
      by (rewrite Hself; reflexivity).
    assert (schema_dir_name (self w) = Some (segment_name s)) as Hname.
    { rewrite Hself. simpl. f_equal. exact (eq_sym (f_equal segment_name Hs)). }
    split.
    + intros Hchanged.
      destruct (write_in_session w message kid vid dk dv Hinv Hkey Hvalue)
        as (Hiff & Hcases & _).
      fold w' in Hiff, Hcases. rewrite (inv_counter w Hinv) in Hiff, Hcases.
      assert (segments w' = segments w
                            ++ [opened_segment (S (length (segments w))) kid vid]) as Hsegs.
      { apply Hiff. right. rewrite Hck, Hcv.
        destruct Hchanged as [Hne | [Hne Hdv]]; [left | right; split; [| exact Hdv]];
          congruence. }
      split; [exact Hsegs |]. split.
      { intros Hin. apply list_elem_of_fmap in Hin as (s0 & Hname0 & Hin).
        symmetry in Hname0. exact (session_names_below w s0 kid vid Hinv Hin Hname0). }
      assert (working_dir w !! name = None /\ is_Some (working_dir w' !! name))
        as [Hfree Hmade].
      { destruct Hcases as [(_ & Hfree & Hmade) | (Hsame & _)]; [split; assumption |].
        rewrite Hsame in Hsegs. apply (f_equal length) in Hsegs.
        rewrite length_app in Hsegs. simpl in Hsegs. lia. }
      split; [exact Hfree |]. split; [exact Hmade |]. split.
      { intros old Hold.
        assert (segments_on_disk w) as Hdisk.
        { apply segments_on_disk_write_messages. intros s0 Hs0. simpl in Hs0.
          apply elem_of_nil in Hs0. contradiction. }
        destruct (Hdisk old Hold) as (files & Hfiles & _).
        split; [eauto |]. rewrite Hfiles.
        apply write_keeps_directories. exact Hfiles. }
      intros r Hr.
      pose proof (write_message_to_file_stream message w) as Hstream.
      fold w' in Hstream.
      destruct (snd (write_message_to_file message w)).
      * destruct Hstream as (kid' & dk' & vid' & dv' & name' & _ & _ & Hname' & _ & _ & Hfile).
        rewrite Hfile in Hr. apply elem_of_app in Hr as [Hr | Hr]; [left; exact Hr |].
        apply list_elem_of_singleton in Hr as ->. right. simpl.
        pose proof (writer_invariant_write message w Hinv) as Hinv'. fold w' in Hinv'.
        pose proof (inv_current w' Hinv') as Hcur'.
        rewrite Hsegs, last_snoc in Hcur'. rewrite Hcur' in Hname'. simpl in Hname'.
        injection Hname' as <-. reflexivity.
      * left. rewrite <- Hstream. exact Hr.
    + intros [Hk Hv].
      assert (schema_changed (self w) {| key := dk; value := dv; key_schema_id := kid;
                                         value_schema_id := vid |} = false) as Hch.
      { destruct (schema_changed (self w) _) eqn:Hch; [| reflexivity].
        apply schema_changed_true in Hch. simpl in Hch. rewrite Hck, Hcv in Hch.
        destruct Hch as [[Hne Hdv] | Hne]; [| congruence].
        destruct Hv as [Hv | Hv]; congruence. }
      destruct (write_kept message w kid vid dk dv (segment_name s) Hkey Hvalue Hch Hname)
        as (Hok & Hself' & Hsegs & Hdir & Hfile).
      fold w' in Hself', Hsegs, Hdir, Hfile. repeat (split; [assumption |]). exact Hfile.
Qed.

End Archive.

(** * Concrete runs *)

Example segment_dir_name_padded : segment_dir_name 1 1 (-1) = "0001_1_-1".
Proof. reflexivity. Qed.

Example segment_dir_name_wide : segment_dir_name 123 (-1) 4294967295 = "0123_-1_4294967295".
Proof. reflexivity. Qed.

(** A schema pair that comes back gets a segment of its own. *)
Example pair_met_again :
  segment_name <$> segments toy
    (fst (write_messages toy [message_1_1; message_1_2; tombstone; message_1_1]
            (initial_world toy)))
  = ["0001_1_1"; "0002_1_2"; "0003_1_1"].
Proof. vm_compute. reflexivity. Qed.

(** C1, twice.  At the second message of [message_1_1; message_1_2] the last
    segment is that of the pair (1, 1), the value schema id changes with the
    value present, and segment 2 is opened.  A tombstone after these two
    finds the segment of the pair (1, 2) as the last one, has its key schema
    id, and opens nothing. *)
Lemma segment_opened_iff_witness :
  (decode_result toy (msg_key message_1_2) = Ok (1, Some [x07])
   /\ decode_result toy (msg_value message_1_2) = Ok (2, Some [x08])
   /\ last (segments toy (fst (write_messages toy [message_1_1] (initial_world toy))))
      = Some (opened_segment 1 1 1)
   /\ segments toy
        (fst (write_message_to_file toy message_1_2
                (fst (write_messages toy [message_1_1] (initial_world toy)))))
      = segments toy (fst (write_messages toy [message_1_1] (initial_world toy)))
        ++ [opened_segment 2 1 2])
  /\ (decode_result toy (msg_key tombstone) = Ok (1, Some [x07])
      /\ decode_result toy (msg_value tombstone) = Ok (-1, None)
      /\ last (segments toy (fst (write_messages toy [message_1_1; message_1_2]
                                    (initial_world toy))))
         = Some (opened_segment 2 1 2)
      /\ segments toy
           (fst (write_message_to_file toy tombstone
                   (fst (write_messages toy [message_1_1; message_1_2] (initial_world toy)))))
         = segments toy (fst (write_messages toy [message_1_1; message_1_2]
                                (initial_world toy)))).
Proof.
  split.
  - split; [reflexivity |]. split; [reflexivity |]. split; [reflexivity |].
    destruct (segment_opened_iff toy [message_1_1] message_1_2 1 2 (Some [x07]) (Some [x08])
                eq_refl eq_refl) as (_ & _ & [Hopens _] & _).
    apply Hopens. right. exists (opened_segment 1 1 1). split; [reflexivity |].
    right. simpl. split; [lia | discriminate].
  - split; [reflexivity |]. split; [reflexivity |]. split; [reflexivity |].
    destruct (segment_opened_iff toy [message_1_1; message_1_2] tombstone 1 (-1)
                (Some [x07]) None eq_refl eq_refl) as (_ & _ & _ & _ & _ & Htombstone & _).
    destruct (Htombstone (opened_segment 2 1 2) eq_refl eq_refl eq_refl) as [Hkept _].
    exact Hkept.
Defined.

(** C2. A tombstone as first message: the segment is opened with value schema
    id -1 and the resolver is asked for -1. *)
Lemma resolver_called_with_sentinel :
  resolver_calls toy (fst (write_messages toy [tombstone] (initial_world toy))) = [1; 1; -1]
  /\ snd (write_messages toy [tombstone] (initial_world toy))
     = [Raise (SchemaLookupFailed (-1))].
Proof. split; vm_compute; reflexivity. Qed.

(** C3 as stated fails: a message without key opens a segment whose key
    schema id is -1. *)
Lemma keyless_segment_counterexample :
  ~ Forall (fun s => 0 <= segment_key_schema_id s)
           (segments toy (fst (write_messages toy [keyless] (initial_world toy)))).
Proof.
  intros Hall. vm_compute in Hall. apply Forall_cons in Hall as [Hneg _].
  apply Hneg. reflexivity.
Qed.

(** C4 as stated fails: [null_valued] is written under value schema id 2 and
    decodes to no value, so it is filed in the segment of [message_1_1] and
    read back with the value schema of id 1. *)
Lemma round_trip_counterexample :
  Forall (fun r => r = Ok tt)
         (snd (write_messages toy [message_1_1; null_valued] (initial_world toy)))
  /\ ~ (exists outs,
          read_messages toy 3
            (working_dir toy (fst (write_messages toy [message_1_1; null_valued]
                                     (initial_world toy))))
            (file toy (fst (write_messages toy [message_1_1; null_valued]
                              (initial_world toy))))
          = Some (Ok outs)
          /\ Forall2 (reconstructs_exactly toy) [message_1_1; null_valued] outs).
Proof.
  split; [vm_compute; repeat constructor |].
  intros (outs & Hread & Hall). vm_compute in Hread. injection Hread as <-.
  apply Forall2_cons_1 in Hall as [_ Hall]. apply Forall2_cons_1 in Hall as [Hsecond _].
  destruct Hsecond as (kid & dk & vid & dv & _ & Hvalue & _ & _ & _ & entry & Hentry & Hload).
  vm_compute in Hvalue. injection Hvalue as <- <-.
  vm_compute in Hentry. injection Hentry as <-.
  vm_compute in Hload. discriminate.
Qed.

(** C4 (amended), on a run with a change of value schema and a tombstone. *)
Lemma archive_round_trip_witness :
  Forall (fun r => r = Ok tt)
         (snd (write_messages toy [message_1_1; message_1_2; tombstone] (initial_world toy)))
  /\ exists outs,
       read_messages toy
         (S (length (file toy (fst (write_messages toy [message_1_1; message_1_2; tombstone]
                                     (initial_world toy))))))
         (working_dir toy (fst (write_messages toy [message_1_1; message_1_2; tombstone]
                                  (initial_world toy))))
         (file toy (fst (write_messages toy [message_1_1; message_1_2; tombstone]
                           (initial_world toy))))
       = Some (Ok outs)
       /\ Forall2 (reconstructs toy) [message_1_1; message_1_2; tombstone] outs.
Proof.
  assert (Forall (fun r => r = Ok tt)
            (snd (write_messages toy [message_1_1; message_1_2; tombstone]
                    (initial_world toy)))) as Hall
    by (vm_compute; repeat constructor).
  split; [exact Hall |].
  apply (archive_round_trip toy [message_1_1; message_1_2; tombstone]);
    [intros schema_id entry _; reflexivity | exact Hall].
Defined.

(** C5 as stated fails: the key is well formed but unknown to the registry,
    the value is too short, and the error is the lookup's. *)
Lemma short_payload_counterexample :
  (exists raw, msg_value unknown_key_short_value = Some raw /\ (length raw < 5)%nat)
  /\ snd (write_message_to_file toy unknown_key_short_value (initial_world toy))
     <> Raise MalformedWireFormat.
Proof.
  split; [exists [x00; x00]; split; [reflexivity | simpl; lia] |].
  vm_compute. discriminate.
Qed.

(** C5 (amended), on a message whose value has two bytes. *)
Lemma short_payload_aborts_witness :
  (exists raw, (msg_key short_value = Some raw \/ msg_value short_value = Some raw)
               /\ (length raw < 5)%nat)
  /\ snd (write_message_to_file toy short_value (initial_world toy)) = Raise MalformedWireFormat
  /\ file toy (fst (write_message_to_file toy short_value (initial_world toy))) = []
  /\ segments toy (fst (write_message_to_file toy short_value (initial_world toy))) = [].
Proof.
  assert (exists raw, (msg_key short_value = Some raw \/ msg_value short_value = Some raw)
                      /\ (length raw < 5)%nat) as Hshort
    by (exists [x00; x00]; split; [right; reflexivity | simpl; lia]).
  split; [exact Hshort |].
  destruct (short_payload_aborts toy short_value (initial_world toy) Hshort)
    as (Hresult & _ & _ & Hfile & Hsegments).
  split; [exact Hresult |]. split; assumption.
Defined.

(** Two messages of the pair (1, 1), which the registry resolves: one segment
    and two records. *)
Lemma one_pair_one_segment_witness :
  [message_1_1; message_1_1] <> []
  /\ Forall (decodes_to_pair toy 1 1) [message_1_1; message_1_1]
  /\ segments toy (fst (write_messages toy [message_1_1; message_1_1] (initial_world toy)))
     = [opened_segment 1 1 1]
  /\ length (file toy (fst (write_messages toy [message_1_1; message_1_1]
                              (initial_world toy)))) = 2%nat.
Proof.
  assert (Forall (decodes_to_pair toy 1 1) [message_1_1; message_1_1]) as Hall.
  { repeat constructor; exists (Some [x07]), (Some [x08]); split; reflexivity. }
  split; [discriminate |]. split; [exact Hall |].
  destruct (one_pair_one_segment toy [message_1_1; message_1_1] 1 1 ltac:(discriminate) Hall)
    as (Hsegments & _ & Hlength).
  split; [exact Hsegments | exact Hlength].
Defined.

(** C7. A stream of two tombstones with one key schema: both messages decode
    to the pair (1, -1).  The first call makes the segment [0001_1_-1], writes
    its key schema document, asks the resolver for -1 and raises before any
    record is appended; the second call finds the pair current and appends
    its record.  One segment is made, and of the two messages only one has a
    record. *)
Lemma one_pair_first_record_lost :
  Forall (decodes_to_pair toy 1 (-1)) [tombstone; tombstone]
  /\ snd (write_messages toy [tombstone; tombstone] (initial_world toy))
     = [Raise (SchemaLookupFailed (-1)); Ok tt]
  /\ segments toy (fst (write_messages toy [tombstone; tombstone] (initial_world toy)))
     = [opened_segment 1 1 (-1)]
  /\ working_dir toy (fst (write_messages toy [tombstone; tombstone] (initial_world toy)))
     = {[ "0001_1_-1" := {[ "key_schema.avsc" := "schema-1" ]} ]}
  /\ file toy (fst (write_messages toy [tombstone; tombstone] (initial_world toy)))
     = [Build_ArchiveRecord toy (Some [x07]) None "0001_1_-1"]
  /\ resolver_calls toy (fst (write_messages toy [tombstone; tombstone] (initial_world toy)))
     = [1; 1; -1; 1].
Proof.
  split; [repeat constructor; exists (Some [x07]), None; split; reflexivity |].
  repeat split; vm_compute; reflexivity.
Qed.

(** C6 as stated fails: in [message_1_2; message_1_1; null_valued] the pair
    (1, 2) of the first message comes back with the third, after the pair
    (1, 1).  Every call returns; the value of the third message decodes to
    the Avro null, so no segment is opened for it and its record is filed
    under [0002_1_1].  The same happens to the pair (1, -1) of a tombstone in
    [tombstone; message_1_1; tombstone]. *)
Lemma used_pair_counterexample :
  decode_result toy (msg_key null_valued) = Ok (1, Some [x07])
  /\ decode_result toy (msg_value null_valued) = Ok (2, None)
  /\ snd (write_messages toy [message_1_2; message_1_1; null_valued] (initial_world toy))
     = [Ok tt; Ok tt; Ok tt]
  /\ segments toy (fst (write_messages toy [message_1_2; message_1_1] (initial_world toy)))
     = [opened_segment 1 1 2; opened_segment 2 1 1]
  /\ segments toy (fst (write_messages toy [message_1_2; message_1_1; null_valued]
                          (initial_world toy)))
     = [opened_segment 1 1 2; opened_segment 2 1 1]
  /\ schema_directory_name toy
       <$> file toy (fst (write_messages toy [message_1_2; message_1_1; null_valued]
                            (initial_world toy)))
     = ["0001_1_2"; "0002_1_1"; "0002_1_1"]
  /\ segments toy (fst (write_messages toy [tombstone; message_1_1; tombstone]
                          (initial_world toy)))
     = [opened_segment 1 1 (-1); opened_segment 2 1 1]
  /\ ~ (forall (messages : list Message) (message : Message) (kid vid : Z)
               (dk dv : option (Datum toy)) (last_made : Segment),
          decode_result toy (msg_key message) = Ok (kid, dk) ->
          decode_result toy (msg_value message) = Ok (vid, dv) ->
          (exists used,
             used ∈ segments toy (fst (write_messages toy messages (initial_world toy)))
             /\ segment_key_schema_id used = kid /\ segment_value_schema_id used = vid) ->
          last (segments toy (fst (write_messages toy messages (initial_world toy))))
          = Some last_made ->
          (segment_key_schema_id last_made, segment_value_schema_id last_made)
          <> (kid, vid) ->
          length (segments toy
                    (fst (write_message_to_file toy message
                            (fst (write_messages toy messages (initial_world toy))))))
          = S (length (segments toy
                         (fst (write_messages toy messages (initial_world toy)))))).
Proof.
  repeat (split; [vm_compute; reflexivity |]).
  intros Hclaim.
  assert (exists used,
            used ∈ segments toy (fst (write_messages toy [message_1_2; message_1_1]
                                        (initial_world toy)))
            /\ segment_key_schema_id used = 1 /\ segment_value_schema_id used = 2) as Hused.
  { exists (opened_segment 1 1 2). split; [vm_compute; constructor | split; reflexivity]. }
  specialize (Hclaim [message_1_2; message_1_1] null_valued 1 2 (Some [x07]) None
                     (opened_segment 2 1 1) eq_refl eq_refl Hused eq_refl
                     ltac:(discriminate)).
  vm_compute in Hclaim. discriminate.
Qed.

(** C6 (amended), twice.  After [message_1_1; message_1_2] the pair (1, 1)
    comes back with its value present: segment 3 is opened under a name no
    earlier segment has.  After [message_1_2; message_1_1] the pair (1, 2)
    comes back with a value that decodes to null: the record is filed under
    the last segment's name and nothing is opened. *)
Lemma segment_names_unique_witness :
  (last (segments toy (fst (write_messages toy [message_1_1; message_1_2]
                              (initial_world toy))))
   = Some (opened_segment 2 1 2)
   /\ segments toy
        (fst (write_message_to_file toy message_1_1
                (fst (write_messages toy [message_1_1; message_1_2] (initial_world toy)))))
      = segments toy (fst (write_messages toy [message_1_1; message_1_2]
                             (initial_world toy)))
        ++ [opened_segment 3 1 1]
   /\ ("0003_1_1"
       ∉ (segment_name
            <$> segments toy (fst (write_messages toy [message_1_1; message_1_2]
                                     (initial_world toy))))))
  /\ (last (segments toy (fst (write_messages toy [message_1_2; message_1_1]
                                 (initial_world toy))))
      = Some (opened_segment 2 1 1)
      /\ segments toy
           (fst (write_message_to_file toy null_valued
                   (fst (write_messages toy [message_1_2; message_1_1] (initial_world toy)))))
         = segments toy (fst (write_messages toy [message_1_2; message_1_1]
                                (initial_world toy)))
      /\ file toy
           (fst (write_message_to_file toy null_valued
                   (fst (write_messages toy [message_1_2; message_1_1] (initial_world toy)))))
         = file toy (fst (write_messages toy [message_1_2; message_1_1] (initial_world toy)))
           ++ [Build_ArchiveRecord toy (Some [x07]) None "0002_1_1"]).
Proof.
  split.
  - split; [reflexivity |].
    destruct (segment_names_unique toy [message_1_1; message_1_2]) as (_ & _ & _ & Hmet).
    destruct (Hmet message_1_1 1 1 (Some [x07]) (Some [x08]) (opened_segment 2 1 2)
                eq_refl eq_refl eq_refl) as [Hopened _].
    destruct Hopened as (Hsegments & Hfresh & _).
    { right. simpl. split; [lia | discriminate]. }
    split; [exact Hsegments | exact Hfresh].
  - split; [reflexivity |].
    destruct (segment_names_unique toy [message_1_2; message_1_1]) as (_ & _ & _ & Hmet).
    destruct (Hmet null_valued 1 2 (Some [x07]) None (opened_segment 2 1 1)
                eq_refl eq_refl eq_refl) as [_ Hkept].
    destruct Hkept as (_ & Hsegments & _ & _ & Hfile).
    { split; [reflexivity | right; reflexivity]. }
    split; [exact Hsegments | exact Hfile].
Defined.

(** C9 as stated fails: the writer itself leaves a directory without value
    schema document when the first message is a tombstone.  The record of a
    second tombstone names that directory, which is there, and
    [read_from_file] does not return the record: it raises as for a missing
    directory. *)
Lemma present_directory_counterexample :
  file toy (fst (write_messages toy [tombstone; tombstone] (initial_world toy)))
  = [Build_ArchiveRecord toy (Some [x07]) None "0001_1_-1"]
  /\ working_dir toy (fst (write_messages toy [tombstone; tombstone] (initial_world toy)))
     !! "0001_1_-1"
     = Some {[ "key_schema.avsc" := "schema-1" ]}
  /\ read_from_file toy
       (working_dir toy (fst (write_messages toy [tombstone; tombstone] (initial_world toy))))
       (file toy (fst (write_messages toy [tombstone; tombstone] (initial_world toy))))
     = ([], Raise (SegmentMissing "0001_1_-1"))
  /\ ~ (forall (dirs : gmap string (gmap string string)) (r : ArchiveRecord toy)
               (rest : list (ArchiveRecord toy)),
          is_Some (dirs !! schema_directory_name toy r) ->
          exists m, snd (read_from_file toy dirs (r :: rest)) = Ok (Some m)).
Proof.
  split; [vm_compute; reflexivity |]. split; [vm_compute; reflexivity |].
  split; [vm_compute; reflexivity |].
  intros Hclaim.
  destruct (Hclaim {[ "0001_1_-1" := {[ "key_schema.avsc" := "schema-1" ]} ]}
                   (Build_ArchiveRecord toy (Some [x07]) None "0001_1_-1") [])
    as [m Hm].
  - vm_compute. eauto.
  - vm_compute in Hm. discriminate.
Qed.

(** C9 (amended), on the archive of [message_1_1; tombstone] and on that of
    [message_1_1] followed by a record that names no directory: the first is
    read to its end, the second ends with the error of its second record. *)
Lemma read_from_file_cases_witness :
  (exists outs,
     read_messages toy 3
       (working_dir toy (fst (write_messages toy [message_1_1; tombstone]
                                (initial_world toy))))
       (file toy (fst (write_messages toy [message_1_1; tombstone] (initial_world toy))))
     = Some (Ok outs)
     /\ length outs = 2%nat)
  /\ read_messages toy 3
       (working_dir toy (fst (write_messages toy [message_1_1] (initial_world toy))))
       (file toy (fst (write_messages toy [message_1_1] (initial_world toy)))
        ++ [Build_ArchiveRecord toy None None "0002_1_2"])
     = Some (Raise (SegmentMissing "0002_1_2")).
Proof.
  split.
  - destruct (read_from_file_cases toy
                (working_dir toy (fst (write_messages toy [message_1_1; tombstone]
                                         (initial_world toy)))))
      as (_ & _ & _ & _ & _ & Hall).
    destruct (Hall (file toy (fst (write_messages toy [message_1_1; tombstone]
                                     (initial_world toy)))) 3%nat)
      as (outs & Hread & Houts).
    + vm_compute. repeat constructor; eexists; reflexivity.
    + vm_compute. lia.
    + exists outs. split; [exact Hread |].
      apply Forall2_length in Houts. rewrite <- Houts. reflexivity.
  - destruct (read_from_file_cases toy
                (working_dir toy (fst (write_messages toy [message_1_1]
                                         (initial_world toy)))))
      as (_ & _ & _ & Herror & _).
    apply Herror.
    + vm_compute. repeat constructor. eexists. reflexivity.
    + reflexivity.
    + vm_compute. lia.
Defined.

(** * The [apply] command *)

Lemma size_list_to_set_le (l : list string) :
  (size (list_to_set l : gset string) <= length l)%nat.
Proof.
  induction l as [| x l IH]; [rewrite list_to_set_nil, size_empty; simpl; lia |].
  rewrite list_to_set_cons. simpl.
  pose proof (size_union_alt {[x]} (list_to_set l : gset string)) as Hsize.
  rewrite size_singleton in Hsize.
  pose proof (subseteq_size (list_to_set l ∖ {[x]}) (list_to_set l : gset string)
                (subseteq_difference_l _ _ _ (reflexivity _))) as Hdiff.
  lia.
Qed.

Lemma size_list_to_set_NoDup (l : list string) :
  length l = size (list_to_set l : gset string) -> NoDup l.
Proof.
  induction l as [| x l IH]; [constructor |]. intros Hlen.
  rewrite list_to_set_cons in Hlen. simpl in Hlen.
  pose proof (size_list_to_set_le l) as Hle.
  destruct (decide (x ∈ l)) as [Hin | Hnin].
  - rewrite subseteq_union_1_L in Hlen
      by (apply singleton_subseteq_l, elem_of_list_to_set; exact Hin).
    lia.
  - rewrite size_union in Hlen
      by (apply disjoint_singleton_l; rewrite elem_of_list_to_set; exact Hnin).
    rewrite size_singleton in Hlen.
    constructor; [exact Hnin | apply IH; lia].
Qed.

Section ApplyCommand.

Context {Topic : Type} `{EqDecision Topic}.
Variable name : Topic -> string.
Variable cluster : Cluster Topic.

Lemma filter_ext_elem {A} (P Q : A -> Prop) `{forall x, Decision (P x)}
    `{forall x, Decision (Q x)} (l : list A) :
  (forall x, x ∈ l -> P x <-> Q x) -> filter P l = filter Q l.
Proof.
  induction l as [| x l IH]; intros Hext; [reflexivity |].
  rewrite !filter_cons.
  assert (filter P l = filter Q l) as ->
    by (apply IH; intros y Hy; apply Hext; right; exact Hy).
  pose proof (Hext x ltac:(left)) as Hx.
  destruct (decide (P x)), (decide (Q x)); tauto.
Qed.

Lemma isdisjoint_true {A} `{EqDecision A} (a b : list A) :
  (forall x, x ∈ a -> x ∉ b) -> isdisjoint a b = true.
Proof.
  intros Hdisj. unfold isdisjoint. apply forallb_forall. intros x Hx.
  apply negb_true_iff, bool_decide_eq_false. apply Hdisj, list_elem_of_In, Hx.
Qed.

Lemma three_way_split {A} (P Q : A -> Prop) `{forall x, Decision (P x)}
    `{forall x, Decision (Q x)} (l : list A) :
  (length (filter P l) + length (filter (fun x => ~ P x /\ Q x) l)
   + length (filter (fun x => ~ P x /\ ~ (~ P x /\ Q x)) l) = length l)%nat.
Proof.
  induction l as [| x l IH]; [reflexivity |].
  rewrite !filter_cons.
  destruct (decide (P x)), (decide (~ P x /\ Q x)), (decide (~ P x /\ ~ (~ P x /\ Q x)));
    simpl; try lia; tauto.
Qed.

(** The three lists of [apply], by properties of the topics alone. *)
Lemma apply_lists (yaml_topics : list Topic) :
  let cluster_topic_names :=
    list_topics cluster (String.concat "|" (name <$> yaml_topics)) in
  let P := fun t => name t ∉ cluster_topic_names in
  let Q := fun t => diff_has_changes cluster t = true in
  let to_create := filter P yaml_topics in
  let to_edit :=
    filter (fun yaml_topic => (yaml_topic ∉ to_create) /\ Q yaml_topic) yaml_topics in
  let to_ignore :=
    filter (fun yaml_topic => (yaml_topic ∉ to_create) /\ (yaml_topic ∉ to_edit))
           yaml_topics in
  to_edit = filter (fun t => ~ P t /\ Q t) yaml_topics
  /\ to_ignore = filter (fun t => ~ P t /\ ~ (~ P t /\ Q t)) yaml_topics.
Proof.
  intros cluster_topic_names P Q to_create to_edit to_ignore.
  assert (forall t, t ∈ yaml_topics -> t ∉ to_create <-> ~ P t) as Hcreate.
  { intros t Ht. subst to_create. rewrite list_elem_of_filter. tauto. }
  assert (to_edit = filter (fun t => ~ P t /\ Q t) yaml_topics) as Hedit.
  { apply filter_ext_elem. intros t Ht. rewrite (Hcreate t Ht). reflexivity. }
  split; [exact Hedit |].
  apply filter_ext_elem. intros t Ht. rewrite (Hcreate t Ht), Hedit.
  rewrite list_elem_of_filter. tauto.
Qed.

Lemma apply_sanity (yaml_topics : list Topic) :
  let cluster_topic_names :=
    list_topics cluster (String.concat "|" (name <$> yaml_topics)) in
  let to_create := filter (fun t => name t ∉ cluster_topic_names) yaml_topics in
  let to_edit :=
    filter (fun yaml_topic => (yaml_topic ∉ to_create)
                              /\ diff_has_changes cluster yaml_topic = true) yaml_topics in
  let to_ignore :=
    filter (fun yaml_topic => (yaml_topic ∉ to_create) /\ (yaml_topic ∉ to_edit))
           yaml_topics in
  isdisjoint to_create to_edit && isdisjoint to_create to_ignore
  && isdisjoint to_edit to_ignore
  && (length to_create + length to_edit + length to_ignore =? length yaml_topics)%nat
  = true.
Proof.
  intros cluster_topic_names to_create to_edit to_ignore.
  destruct (apply_lists yaml_topics) as [Hedit Hignore].
  fold cluster_topic_names to_create to_edit to_ignore in Hedit, Hignore.
  repeat (apply andb_true_iff; split).
  - apply isdisjoint_true. intros t Ht. subst to_edit. rewrite list_elem_of_filter. tauto.
  - apply isdisjoint_true. intros t Ht. subst to_ignore. rewrite list_elem_of_filter. tauto.
  - apply isdisjoint_true. intros t Ht. subst to_ignore. rewrite list_elem_of_filter. tauto.
  - apply Nat.eqb_eq. rewrite Hedit, Hignore. apply three_way_split.
Qed.

(** The sanity check of [apply] never fails: the topics to create, to edit
    and to ignore are pairwise disjoint and make up the topics of the file. *)
Theorem apply_sanity_check_holds (yaml_topics : list Topic) :
  apply name cluster yaml_topics <> SanityCheckFailed.
Proof.
  unfold apply. destruct (negb _); [discriminate |].
  rewrite apply_sanity. simpl.
  repeat match goal with |- context [if ?c then _ else _] => destruct c end; discriminate.
Qed.

(** [apply] raises its ValidationException exactly when two topics of the
    file have the same name; nothing is asked of the cluster then. *)
Theorem apply_rejects_duplicates (yaml_topics : list Topic) :
  apply name cluster yaml_topics = DuplicateTopicNames <-> ~ NoDup (name <$> yaml_topics).
Proof.
  unfold apply.
  destruct (length (name <$> yaml_topics)
            =? size (list_to_set (name <$> yaml_topics) : gset string))%nat eqn:Hlen; simpl.
  - apply Nat.eqb_eq in Hlen. apply size_list_to_set_NoDup in Hlen.
    rewrite apply_sanity. simpl.
    split; [| tauto].
    repeat match goal with |- context [if ?c then _ else _] => destruct c end; discriminate.
  - split; [intros _ | reflexivity]. intros Hnodup.
    apply Nat.eqb_neq in Hlen. apply Hlen. symmetry. apply size_list_to_set. exact Hnodup.
Qed.

(** When [apply] changes the cluster, the names in the file are pairwise
    distinct, the user has approved, and something is to be done; it creates
    the topics of the file whose names the cluster does not have, in the
    order of the file, and alters those the cluster has and that differ from
    it, all of them by valid changes; the three counts it reports add up to
    the number of topics in the file. *)
Theorem apply_changes_applied (yaml_topics to_create to_edit : list Topic)
    (unchanged created changed : nat) :
  apply name cluster yaml_topics
  = ChangesApplied to_create to_edit unchanged created changed ->
  let found := list_topics cluster (String.concat "|" (name <$> yaml_topics)) in
  NoDup (name <$> yaml_topics)
  /\ ensure_approval cluster = true
  /\ to_create = filter (fun t => name t ∉ found) yaml_topics
  /\ to_edit = filter (fun t => name t ∈ found /\ diff_has_changes cluster t = true)
                      yaml_topics
  /\ Forall (fun t => diff_is_valid cluster t = true) to_edit
  /\ created = length to_create /\ changed = length to_edit
  /\ (unchanged + created + changed = length yaml_topics)%nat
  /\ (0 < created + changed)%nat.
Proof.
  intros Hrun found. revert Hrun. unfold apply.
  destruct (length (name <$> yaml_topics)
            =? size (list_to_set (name <$> yaml_topics) : gset string))%nat eqn:Hlen;
    simpl; [| discriminate].
  apply Nat.eqb_eq in Hlen. apply size_list_to_set_NoDup in Hlen.
  pose proof (apply_sanity yaml_topics) as Hsane. cbv zeta in Hsane.
  rewrite Hsane. simpl.
  apply andb_true_iff in Hsane as [_ Hsum]. apply Nat.eqb_eq in Hsum.
  destruct (apply_lists yaml_topics) as [Hedit _]. cbv zeta in Hedit.
  destruct (_ + _ =? 0)%nat eqn:Hzero; [discriminate |].
  destruct (existsb _ _) eqn:Hinvalid; [discriminate |].
  destruct (ensure_approval cluster) eqn:Happroval; simpl; [| discriminate].
  intros [= <- <- <- <- <-].
  split; [exact Hlen |]. split; [reflexivity |]. split; [reflexivity |].
  split.
  { rewrite Hedit. apply filter_ext_elem. intros t _.
    destruct (decide (name t ∈ found)); tauto. }
  split.
  { apply Forall_forall. intros t Ht.
    destruct (diff_is_valid cluster t) eqn:Hvalid; [reflexivity |].
    assert (existsb (fun t => negb (diff_is_valid cluster t))
              (filter (fun yaml_topic =>
                         (yaml_topic ∉ filter (fun t => name t ∉ found) yaml_topics)
                         /\ diff_has_changes cluster yaml_topic = true) yaml_topics)
            = true) as Habs; [| subst found; congruence].
    apply existsb_exists. exists t. split; [apply list_elem_of_In; exact Ht |].
    rewrite Hvalid. reflexivity. }
  split; [reflexivity |]. split; [reflexivity |].
  apply Nat.eqb_neq in Hzero. split; lia.
Qed.

Lemma filter_none {A} (P : A -> Prop) `{forall x, Decision (P x)} (l : list A) :
  (forall x, x ∈ l -> ~ P x) -> filter P l = [].
Proof.
  induction l as [| x l IH]; intros Hnone; [reflexivity |].
  rewrite filter_cons_False by (apply Hnone; left).
  apply IH. intros y Hy. apply Hnone. right. exact Hy.
Qed.

(** [apply] finds nothing to do exactly when the names in the file are
    pairwise distinct and every topic of the file is in the cluster without
    any difference. *)
Theorem apply_no_changes (yaml_topics : list Topic) :
  let found := list_topics cluster (String.concat "|" (name <$> yaml_topics)) in
  apply name cluster yaml_topics = NoChangesDetected
  <-> NoDup (name <$> yaml_topics)
      /\ Forall (fun t => name t ∈ found /\ diff_has_changes cluster t = false) yaml_topics.
Proof.
  intros found. unfold apply.
  destruct (length (name <$> yaml_topics)
            =? size (list_to_set (name <$> yaml_topics) : gset string))%nat eqn:Hlen; simpl.
  2:{ split; [discriminate |]. intros [Hnodup _]. apply Nat.eqb_neq in Hlen.
      exfalso. apply Hlen. symmetry. apply size_list_to_set. exact Hnodup. }
  apply Nat.eqb_eq in Hlen. apply size_list_to_set_NoDup in Hlen.
  pose proof (apply_sanity yaml_topics) as Hsane. cbv zeta in Hsane.
  rewrite Hsane. simpl.
  destruct (apply_lists yaml_topics) as [Hedit _]. cbv zeta in Hedit.
  fold found in Hedit |- *.
  set (to_create := filter (fun t => name t ∉ found) yaml_topics) in *.
  set (to_edit := filter (fun yaml_topic => (yaml_topic ∉ to_create)
                            /\ diff_has_changes cluster yaml_topic = true) yaml_topics) in *.
  destruct (length to_edit + length to_create =? 0)%nat eqn:Hzero.
  - apply Nat.eqb_eq in Hzero.
    assert (to_create = []) as Hc by (apply length_zero_iff_nil; lia).
    assert (to_edit = []) as He by (apply length_zero_iff_nil; lia).
    split; [intros _ | reflexivity]. split; [exact Hlen |].
    apply Forall_forall. intros t Ht.
    assert (name t ∈ found) as Hfound.
    { destruct (decide (name t ∈ found)) as [? | Hnot]; [assumption |].
      assert (t ∈ to_create) as Habs
        by (subst to_create; apply list_elem_of_filter; split; assumption).
      rewrite Hc in Habs. apply elem_of_nil in Habs. contradiction. }
    split; [exact Hfound |].
    destruct (diff_has_changes cluster t) eqn:Hchanges; [| reflexivity].
    assert (t ∈ to_edit) as Habs.
    { rewrite Hedit. apply list_elem_of_filter. split; [| exact Ht]. tauto. }
    rewrite He in Habs. apply elem_of_nil in Habs. contradiction.
  - split.
    + repeat match goal with |- context [if ?c then _ else _] => destruct c end; discriminate.
    + intros [_ Hall]. exfalso. apply Nat.eqb_neq in Hzero. apply Hzero.
      rewrite Forall_forall in Hall.
      assert (to_create = []) as ->.
      { apply filter_none. intros t Ht. destruct (Hall t Ht). tauto. }
      assert (to_edit = []) as ->.
      { rewrite Hedit. apply filter_none. intros t Ht.
        destruct (Hall t Ht) as [_ Hno]. rewrite Hno. intros [_ ?]. discriminate. }
      reflexivity.
Qed.

End ApplyCommand.

(** [apply] on a file that describes [users], which the cluster has with
    another configuration, and [payments], which it does not have. *)
Lemma apply_changes_applied_witness :
  apply (fun t : string => t) toy_cluster ["users"; "payments"]
  = ChangesApplied ["payments"] ["users"] 0 1 1
  /\ NoDup ["users"; "payments"]
  /\ ensure_approval toy_cluster = true.
Proof.
  assert (apply (fun t : string => t) toy_cluster ["users"; "payments"]
          = ChangesApplied ["payments"] ["users"] 0 1 1) as Hrun
    by (vm_compute; reflexivity).
  split; [exact Hrun |].
  destruct (apply_changes_applied (fun t : string => t) toy_cluster _ _ _ _ _ _ Hrun)
    as (Hnodup & Happroval & _).
  split; [exact Hnodup | exact Happroval].
Defined.

(** * Concrete runs of the further properties *)

(** The directory of the first segment is still what it was after two more
    segments were opened. *)
Lemma directories_never_modified_witness :
  working_dir toy (fst (write_messages toy [message_1_1] (initial_world toy))) !! "0001_1_1"
  = Some (<["value_schema.avsc" := "schema-1"]> {["key_schema.avsc" := "schema-1"]})
  /\ working_dir toy
       (fst (write_messages toy [message_1_2; message_1_1]
               (fst (write_messages toy [message_1_1] (initial_world toy))))) !! "0001_1_1"
     = Some (<["value_schema.avsc" := "schema-1"]> {["key_schema.avsc" := "schema-1"]}).
Proof.
  assert (working_dir toy (fst (write_messages toy [message_1_1] (initial_world toy)))
            !! "0001_1_1"
          = Some (<["value_schema.avsc" := "schema-1"]> {["key_schema.avsc" := "schema-1"]}))
    as Hfirst by (vm_compute; reflexivity).
  split; [exact Hfirst |].
  exact (directories_never_modified toy [message_1_2; message_1_1] _ _ _ Hfirst).
Defined.

(** The tombstone after [message_1_1; message_1_2] is filed under segment 2,
    whose name carries the value schema id 2. *)
Lemma record_directory_matches_message_witness :
  snd (write_message_to_file toy tombstone
         (fst (write_messages toy [message_1_1; message_1_2] (initial_world toy)))) = Ok tt
  /\ exists kid dk vid dv vid',
       decode_result toy (msg_key tombstone) = Ok (kid, dk)
       /\ decode_result toy (msg_value tombstone) = Ok (vid, dv)
       /\ (dv <> None -> vid' = vid)
       /\ last (segments toy
                  (fst (write_message_to_file toy tombstone
                          (fst (write_messages toy [message_1_1; message_1_2]
                                  (initial_world toy))))))
          = Some (opened_segment
                    (length (segments toy
                       (fst (write_message_to_file toy tombstone
                               (fst (write_messages toy [message_1_1; message_1_2]
                                       (initial_world toy))))))) kid vid')
       /\ last (file toy
                  (fst (write_message_to_file toy tombstone
                          (fst (write_messages toy [message_1_1; message_1_2]
                                  (initial_world toy))))))
          = Some {| record_key := dk; record_value := dv;
                    schema_directory_name :=
                      segment_dir_name
                        (length (segments toy
                           (fst (write_message_to_file toy tombstone
                                   (fst (write_messages toy [message_1_1; message_1_2]
                                           (initial_world toy))))))) kid vid' |}.
Proof.
  assert (snd (write_message_to_file toy tombstone
                 (fst (write_messages toy [message_1_1; message_1_2] (initial_world toy))))
          = Ok tt) as Hok by (vm_compute; reflexivity).
  split; [exact Hok |].
  exact (record_directory_matches_message toy [message_1_1; message_1_2] tombstone Hok).
Defined.

(** A tombstone as first message raises while its segment is opened; written
    again it is archived. *)
Lemma repeated_message_keeps_segment_witness :
  decode_result toy (msg_key tombstone) = Ok (1, Some [x07])
  /\ decode_result toy (msg_value tombstone) = Ok (-1, None)
  /\ snd (write_message_to_file toy tombstone (initial_world toy))
     = Raise (SchemaLookupFailed (-1))
  /\ snd (write_message_to_file toy tombstone
            (fst (write_message_to_file toy tombstone (initial_world toy)))) = Ok tt.
Proof.
  split; [reflexivity |]. split; [reflexivity |]. split; [vm_compute; reflexivity |].
  apply (repeated_message_keeps_segment toy tombstone (initial_world toy) 1 (-1)
           (Some [x07]) None); reflexivity.
Defined.

(** A new writer on the archive directory that a first session has left
    meets the directory [0001_1_1]. *)
Lemma taken_directory_name_witness :
  decode_result toy (msg_key message_1_1) = Ok (1, Some [x07])
  /\ decode_result toy (msg_value message_1_1) = Ok (1, Some [x08])
  /\ is_Some
       (working_dir toy
          (Build_World toy new_writer
             (working_dir toy (fst (write_messages toy [message_1_1] (initial_world toy))))
             [] [] [])
        !! segment_dir_name 1 1 1)
  /\ snd (write_message_to_file toy message_1_1
            (Build_World toy new_writer
               (working_dir toy (fst (write_messages toy [message_1_1] (initial_world toy))))
               [] [] []))
     = Raise (FileExistsError "0001_1_1")
  /\ file toy
       (fst (write_message_to_file toy message_1_1
               (fst (write_message_to_file toy message_1_1
                       (Build_World toy new_writer
                          (working_dir toy
                             (fst (write_messages toy [message_1_1] (initial_world toy))))
                          [] [] [])))))
     = [Build_ArchiveRecord toy (Some [x07]) (Some [x08]) "0001_1_1"].
Proof.
  set (second_session :=
         Build_World toy new_writer
           (working_dir toy (fst (write_messages toy [message_1_1] (initial_world toy))))
           [] [] []).
  assert (is_Some (working_dir toy second_session !! segment_dir_name 1 1 1)) as Htaken
    by (eexists; vm_compute; reflexivity).
  split; [reflexivity |]. split; [reflexivity |]. split; [exact Htaken |].
  destruct (taken_directory_name toy message_1_1 second_session 1 1 (Some [x07]) (Some [x08])
              eq_refl eq_refl (or_introl eq_refl) Htaken)
    as (Hraise & _ & _ & _ & _ & _ & _ & _ & Hfile).
  split; [exact Hraise | exact Hfile].
Defined.

(** A tombstone as first message, with a registry that has no schema -1. *)
Lemma failed_opening_leaves_unreadable_record_witness :
  decode_result toy (msg_key tombstone) = Ok (1, Some [x07])
  /\ decode_result toy (msg_value tombstone) = Ok (-1, None)
  /\ working_dir toy (initial_world toy) !! segment_dir_name 1 1 (-1) = None
  /\ get_schema_from_id toy (-1) = None
  /\ is_ok (snd (read_from_file toy
                   (working_dir toy
                      (fst (write_message_to_file toy tombstone
                              (fst (write_message_to_file toy tombstone
                                      (initial_world toy))))))
                   [Build_ArchiveRecord toy (Some [x07]) None
                      (segment_dir_name 1 1 (-1))])) = false.
Proof.
  split; [reflexivity |]. split; [reflexivity |]. split; [reflexivity |].
  split; [reflexivity |].
  apply (failed_opening_leaves_unreadable_record toy tombstone (initial_world toy) 1 (-1)
           (Some [x07]) None [] eq_refl eq_refl (or_introl eq_refl) eq_refl
           (or_intror eq_refl)).
Defined.

(** The first record of a session reads the same after later write calls. *)
Lemma later_writes_keep_records_readable_witness :
  is_Some (working_dir toy (fst (write_messages toy [message_1_1] (initial_world toy)))
             !! "0001_1_1")
  /\ read_from_file toy
       (working_dir toy
          (fst (write_messages toy [message_1_2; tombstone]
                  (fst (write_messages toy [message_1_1] (initial_world toy))))))
       [Build_ArchiveRecord toy (Some [x07]) (Some [x08]) "0001_1_1"]
     = read_from_file toy
         (working_dir toy (fst (write_messages toy [message_1_1] (initial_world toy))))
         [Build_ArchiveRecord toy (Some [x07]) (Some [x08]) "0001_1_1"].
Proof.
  assert (is_Some (working_dir toy (fst (write_messages toy [message_1_1] (initial_world toy)))
                     !! "0001_1_1")) as Hdir
    by (eexists; vm_compute; reflexivity).
  split; [exact Hdir |].
  exact (later_writes_keep_records_readable toy [message_1_2; tombstone] _
           (Build_ArchiveRecord toy (Some [x07]) (Some [x08]) "0001_1_1") [] Hdir).
Defined.

(** The directory of the segment that [message_1_1] opens. *)
Lemma segment_directories_hold_registered_schemas_witness :
  opened_segment 1 1 1
    ∈ segments toy (fst (write_messages toy [message_1_1] (initial_world toy)))
  /\ exists files,
       working_dir toy (fst (write_messages toy [message_1_1] (initial_world toy)))
         !! "0001_1_1" = Some files
       /\ forall text, files !! "key_schema.avsc" = Some text ->
            exists entry, get_schema_from_id toy 1 = Some entry
                          /\ text = json_dumps toy (original_schema entry).
Proof.
  assert (opened_segment 1 1 1
            ∈ segments toy (fst (write_messages toy [message_1_1] (initial_world toy))))
    as Hin by (vm_compute; left).
  split; [exact Hin |].
  destruct (segment_directories_hold_registered_schemas toy [message_1_1] _ Hin)
    as (files & Hfiles & _ & Hkey & _).
  exists files. split; [exact Hfiles | exact Hkey].
Defined.
